(** * External URI opener service

    A shallow embedding of
    [src/vs/workbench/contrib/externalUriOpener/common/externalUriOpenerService.ts]
    and the properties of [ExternalUriOpenerService.openExternal].

    One call of [openExternal] is modelled as a computation that produces an
    outcome (the value the returned promise resolves to, or the error it
    rejects with) and the trace of the calls it makes on its collaborators:
    providers, openers, the configuration service, the quick-pick service,
    the preferences service and the [dispose] methods of the opener sets.
    Every [await] is a sequence point of one request; other requests that
    run in between are not modelled. *)

From Stdlib Require Import String List Bool Arith Lia.
Import ListNotations.
Open Scope string_scope.
Open Scope list_scope.

Set Default Proof Using "Type".

(** ** Outcomes and the trace monad *)

(** A JavaScript exception value (the reason of a rejected promise). *)
Definition error := string.

(** What a call or an awaited promise ends with. *)
Inductive outcome (A : Type) : Type :=
| Returned (a : A)
| Thrown (e : error).
Arguments Returned {A} a.
Arguments Thrown {A} e.

Section Trace.
Context {E : Type}.

(** A computation: its outcome and the events it emitted, oldest first. *)
Definition M (A : Type) : Type := (outcome A * list E)%type.

Definition ret {A} (a : A) : M A := (Returned a, []).

Definition bind {A B} (m : M A) (k : A -> M B) : M B :=
  match m with
  | (Returned a, t) => let (r, t') := k a in (r, t ++ t')
  | (Thrown e, t) => (Thrown e, t)
  end.

(** A value computed by platform code that may throw and leaves no event. *)
Definition lift {A} (o : outcome A) : M A := (o, []).

(** A call on a collaborator: the call is logged, then it returns or throws. *)
Definition call {A} (ev : E) (o : outcome A) : M A := (o, [ev]).

(** [try { body } finally { fin }]: [fin] runs however [body] ends; the
    outcome is [body]'s unless [fin] itself throws. *)
Definition try_finally {A} (body : M A) (fin : M unit) : M A :=
  let (r, t) := body in
  let (f, t') := fin in
  (match f with Returned _ => r | Thrown e => Thrown e end, t ++ t').
End Trace.

Notation "x <- m ;; k" := (bind m (fun x => k))
  (at level 100, m at next level, right associativity).
Notation "' p <- m ;; k" := (bind m (fun x => match x with p => k end))
  (at level 100, p pattern, m at next level, right associativity).

(** [value || []] for a value that is a list or [undefined]. *)
Definition or_empty {A} (value : option (list A)) : list A :=
  match value with
  | Some l => l
  | None => []
  end.

(** ** Data model *)

(** The identity of a disposable object: what its [dispose()] releases. *)
Definition disposable := nat.

Section Service.
(** Imports of the file that are not part of it. *)
Context {URI : Type}.
(** [URI.parse] of [vs/base/common/uri]. *)
Variable URI_parse : string -> outcome URI.
(** [uri.toString()]. *)
Variable URI_toString : URI -> string.
(** [new URL(s).hostname]; the constructor throws on an invalid URL. *)
Variable URL_hostname : string -> outcome string.
(** [nls.localize(key, message, ...args)]. *)
Variable localize : string -> string -> list string -> string.
(** [externalUriOpenersSettingId] of [externalUriOpener/common/configuration]. *)
Variable externalUriOpenersSettingId : string.
(** What the [dispose()] method of a disposable object does when it is
    called: it returns, or it throws. *)
Variable disposing : disposable -> outcome unit.
(** The error that [DisposableStore.dispose()] throws once it has called
    every [dispose()], made of the errors that those calls threw (the error
    itself when there is one, an aggregate of them when there are more). *)
Variable dispose_error : list error -> error.

(** The argument of [openExternal]: declared [string], tested at run time
    with [typeof href === 'string']. *)
Inductive Href : Type :=
| HrefString (s : string)
| HrefUri (u : URI).

(** [ExternalOpenerEntry extends IExternalOpener]. The promise returned by
    [openExternal] is modelled by its outcome: [Thrown] is a throw of the
    call or a rejection of the promise. The service returns that promise
    from inside its [try] block without awaiting it, so the [finally] block
    runs right after the invocation; the trace records invocations. *)
Record ExternalOpenerEntry : Type := {
  id : string;
  label : string;
  openExternal : Href -> outcome bool
}.

(** [ExternalOpenerSet]: [dispose] is the identity of the set as a
    disposable object; what its [dispose()] method does when it is called
    is [disposing (dispose set)]: provider code, which may throw. *)
Record ExternalOpenerSet : Type := {
  openers : list ExternalOpenerEntry;
  dispose : disposable
}.

(** [IExternalOpenerProvider]: the answer is [undefined] ([None]), a set,
    or a rejection. *)
Record IExternalOpenerProvider : Type := {
  provideExternalOpeners : URI -> outcome (option ExternalOpenerSet)
}.

(** [ExternalUriOpenerConfiguration]: one entry of the setting. *)
Record ExternalUriOpenerConfiguration : Type := {
  hostname : string;
  entry_id : string
}.

(** The [opener] field of a [PickItem]:
    [opener?: IExternalOpener | 'configureDefault']. *)
Inductive PickOpener : Type :=
| OpenerUndefined
| OpenerConfigureDefault
| OpenerEntry (o : ExternalOpenerEntry).

Record PickItem : Type := {
  pick_label : string;
  opener : PickOpener
}.

(** [PickItem | IQuickPickSeparator]. *)
Inductive QuickPickInput : Type :=
| Item (i : PickItem)
| Separator.

(** The services injected in the constructor, by the methods used. *)
Record Services : Type := {
  (** [configurationService.getValue(key)] *)
  getValue : string -> outcome (option (list ExternalUriOpenerConfiguration));
  (** [preferencesService.openGlobalSettings(jsonEditor, { revealSetting: { key, edit } })] *)
  openGlobalSettings : bool -> string -> bool -> outcome unit;
  (** [quickInputService.pick(items, { placeHolder })] *)
  pick : list QuickPickInput -> string -> outcome (option PickItem)
}.

(** The calls one request makes on its collaborators. *)
Inductive event : Type :=
| EvProvideExternalOpeners (p : IExternalOpenerProvider) (resource : URI)
| EvGetValue (key : string)
| EvOpenExternal (o : ExternalOpenerEntry) (href : Href)
| EvPick (items : list QuickPickInput) (placeHolder : string)
| EvOpenGlobalSettings (jsonEditor : bool) (key : string) (edit : bool)
| EvDispose (d : disposable).

Definition is_open (ev : event) : bool :=
  match ev with EvOpenExternal _ _ => true | _ => false end.
Definition is_pick (ev : event) : bool :=
  match ev with EvPick _ _ => true | _ => false end.
Definition is_openGlobalSettings (ev : event) : bool :=
  match ev with EvOpenGlobalSettings _ _ _ => true | _ => false end.
Definition is_dispose (ev : event) : bool :=
  match ev with EvDispose _ => true | _ => false end.
Definition is_dispose_of (d : disposable) (ev : event) : bool :=
  match ev with EvDispose d' => Nat.eqb d d' | _ => false end.

(** ** DisposableStore *)

(** Modelled from the spec: [DisposableStore] of [vs/base/common/lifecycle]
    is imported, not defined, by this file. The store retains the disposal
    handles added to it, each handle once and in the order of insertion.
    Its [dispose()] releases every retained handle: it calls the
    [dispose()] of each one in that order, also after one of them has
    thrown, and when some of them threw it throws in its turn, after the
    last call. *)
Definition DisposableStore := list disposable.

Definition DisposableStore_new : DisposableStore := [].

Definition DisposableStore_add (d : disposable) (s : DisposableStore)
  : DisposableStore :=
  if existsb (Nat.eqb d) s then s else s ++ [d].

(** The errors that the [dispose()] methods of the retained handles throw,
    in the order of the calls. *)
Fixpoint dispose_errors (s : DisposableStore) : list error :=
  match s with
  | [] => []
  | d :: rest =>
      match disposing d with
      | Returned _ => dispose_errors rest
      | Thrown e => e :: dispose_errors rest
      end
  end.

Definition DisposableStore_dispose (s : DisposableStore) : M unit :=
  (match dispose_errors s with
   | [] => Returned tt
   | errors => Thrown (dispose_error errors)
   end,
   map EvDispose s).

(** How [try { ... } finally { toDispose.dispose() }] ends when the [try]
    block ends with [r]: with [r], unless the release throws. *)
Definition after_release {A} (s : DisposableStore) (r : outcome A)
  : outcome A :=
  match dispose_errors s with
  | [] => r
  | errors => Thrown (dispose_error errors)
  end.

(** ** openExternal *)

(** [typeof href === 'string' ? URI.parse(href) : href] *)
Definition targetUri_of (href : Href) : outcome URI :=
  match href with
  | HrefString s => URI_parse s
  | HrefUri u => Returned u
  end.

(** The gathering loop, lines 69-75: the providers are awaited one after
    the other; [toDispose] and [openers] are the two accumulators. *)
Fixpoint gather (providers : list IExternalOpenerProvider) (targetUri : URI)
    (toDispose : DisposableStore) (openers_acc : list ExternalOpenerEntry)
  : M (DisposableStore * list ExternalOpenerEntry) :=
  match providers with
  | [] => ret (toDispose, openers_acc)
  | provider :: rest =>
      set <- call (EvProvideExternalOpeners provider targetUri)
                  (provideExternalOpeners provider targetUri) ;;
      match set with
      | Some set =>
          gather rest targetUri
                 (DisposableStore_add (dispose set) toDispose)
                 (openers_acc ++ openers set)
      | None => gather rest targetUri toDispose openers_acc
      end
  end.

(** The loop over the configuration, lines 84-91. [Some b]: the function
    returned [b] from inside the loop; [None]: the loop ran to its end. *)
Fixpoint scanConfig (config : list ExternalUriOpenerConfiguration)
    (url_hostname : string) (gathered : list ExternalOpenerEntry)
    (href : Href) : M (option bool) :=
  match config with
  | [] => ret None
  | entry :: rest =>
      if String.eqb (hostname entry) url_hostname then
        match find (fun o => String.eqb (id o) (entry_id entry)) gathered with
        | Some o =>
            b <- call (EvOpenExternal o href) (openExternal o href) ;;
            ret (Some b)
        | None => scanConfig rest url_hostname gathered href
        end
      else scanConfig rest url_hostname gathered href
  end.

(** The picker's items, lines 94-109. *)
Definition pickItems (gathered : list ExternalOpenerEntry)
  : list QuickPickInput :=
  map (fun o => Item {| pick_label := label o; opener := OpenerEntry o |})
      gathered
  ++ [ Item {| pick_label := "Default"; opener := OpenerUndefined |};
       Separator;
       Item {| pick_label :=
                 localize "selectOpenerConfigureTitle"
                          "Configure default opener..." [];
               opener := OpenerConfigureDefault |} ].

Definition placeHolder (targetUri : URI) : string :=
  localize "selectOpenerPlaceHolder" "Select opener for {0}"
           [URI_toString targetUri].

(** What is done with the picker's answer, lines 115-129. *)
Definition resolvePicked (svc : Services) (href : Href)
    (picked : option PickItem) : M bool :=
  match picked with
  | None => ret true
  | Some picked =>
      match opener picked with
      | OpenerUndefined => ret true
      | OpenerConfigureDefault =>
          _ <- call (EvOpenGlobalSettings true externalUriOpenersSettingId true)
                    (openGlobalSettings svc true externalUriOpenersSettingId true) ;;
          ret true
      | OpenerEntry o => call (EvOpenExternal o href) (openExternal o href)
      end
  end.

(** The body of the [try] block, lines 78-129. *)
Definition decide (svc : Services) (targetUri : URI) (href : Href)
    (gathered : list ExternalOpenerEntry) : M bool :=
  if Nat.eqb (length gathered) 0 then ret false
  else
    url_hostname <- lift (URL_hostname (URI_toString targetUri)) ;;
    value <- call (EvGetValue externalUriOpenersSettingId)
                  (getValue svc externalUriOpenersSettingId) ;;
    let config := or_empty value in
    returned <- scanConfig config url_hostname gathered href ;;
    match returned with
    | Some b => ret b
    | None =>
        picked <- call (EvPick (pickItems gathered) (placeHolder targetUri))
                       (pick svc (pickItems gathered) (placeHolder targetUri)) ;;
        resolvePicked svc href picked
    end.

(** [ExternalUriOpenerService.openExternal], lines 63-133. [providers] is
    the sequence of providers that the loop of line 69 visits, one [await]
    after the other. *)
Definition ExternalUriOpenerService_openExternal (svc : Services)
    (providers : list IExternalOpenerProvider) (href : Href) : M bool :=
  targetUri <- lift (targetUri_of href) ;;
  '(toDispose, gathered) <- gather providers targetUri DisposableStore_new [] ;;
  try_finally (decide svc targetUri href gathered)
              (DisposableStore_dispose toDispose).

End Service.

Arguments HrefString {URI} s.
Arguments HrefUri {URI} u.
Arguments OpenerUndefined {URI}.
Arguments OpenerConfigureDefault {URI}.
Arguments Separator {URI}.
Arguments EvGetValue {URI} key.
Arguments EvOpenGlobalSettings {URI} jsonEditor key edit.
Arguments EvDispose {URI} d.

(** ** The loops as searches *)

Section Searches.
Context {URI : Type}.

(** An entry of the configuration delegates when its hostname is the
    target's and its id is the id of a gathered opener. *)
Definition entry_applies (url_hostname : string)
    (gathered : list (@ExternalOpenerEntry URI))
    (entry : ExternalUriOpenerConfiguration) : bool :=
  String.eqb (hostname entry) url_hostname
  && existsb (fun o => String.eqb (id o) (entry_id entry)) gathered.

(** The opener that the loop over the configuration delegates to. *)
Fixpoint configuredOpener (config : list ExternalUriOpenerConfiguration)
    (url_hostname : string) (gathered : list (@ExternalOpenerEntry URI))
  : option ExternalOpenerEntry :=
  match config with
  | [] => None
  | entry :: rest =>
      if String.eqb (hostname entry) url_hostname then
        match find (fun o => String.eqb (id o) (entry_id entry)) gathered with
        | Some o => Some o
        | None => configuredOpener rest url_hostname gathered
        end
      else configuredOpener rest url_hostname gathered
  end.

(** A provider that offers no opener: [undefined] or an empty set. *)
Definition offers_nothing (targetUri : URI)
    (p : @IExternalOpenerProvider URI) : Prop :=
  provideExternalOpeners p targetUri = Returned None
  \/ exists set, provideExternalOpeners p targetUri = Returned (Some set)
                 /\ openers set = [].

(** A provider whose promise resolves. *)
Definition answers (targetUri : URI) (p : @IExternalOpenerProvider URI)
  : Prop :=
  exists a, provideExternalOpeners p targetUri = Returned a.

(** The openers that a provider contributes to the flattened list. *)
Definition offered (targetUri : URI) (p : @IExternalOpenerProvider URI)
  : list ExternalOpenerEntry :=
  match provideExternalOpeners p targetUri with
  | Returned (Some set) => openers set
  | _ => []
  end.
End Searches.

(** ** The exit paths of the [try] block *)

Section Paths.
Context {URI : Type}.
Variable URI_toString : URI -> string.
Variable URL_hostname : string -> outcome string.
Variable localize : string -> string -> list string -> string.
Variable externalUriOpenersSettingId : string.

Variable svc : @Services URI.
Variable targetUri : URI.
Variable href : @Href URI.
Variable gathered : list (@ExternalOpenerEntry URI).

(** The request reached the loop over [config] for the host [h]. *)
Definition scans (h : string)
    (config : list ExternalUriOpenerConfiguration) : Prop :=
  gathered <> []
  /\ URL_hostname (URI_toString targetUri) = Returned h
  /\ exists value,
       getValue svc externalUriOpenersSettingId = Returned value
       /\ config = or_empty value.

(** The request showed the picker, whose answer was [answer]. *)
Definition prompts (answer : outcome (option (@PickItem URI))) : Prop :=
  (exists h config,
      scans h config /\ configuredOpener config h gathered = None)
  /\ pick svc (pickItems localize gathered)
           (placeHolder URI_toString localize targetUri) = answer.

(** The event of the picker being shown. *)
Definition shown : @event URI :=
  EvPick (pickItems localize gathered)
         (placeHolder URI_toString localize targetUri).

(** Each way the [try] block ends, with its outcome and its calls. *)
Inductive ExitPath : M (E:=@event URI) bool -> Prop :=
| NoOpener :
    gathered = [] ->
    ExitPath (Returned false, [])
| HostnameThrows e :
    gathered <> [] ->
    URL_hostname (URI_toString targetUri) = Thrown e ->
    ExitPath (Thrown e, [])
| GetValueThrows h e :
    gathered <> [] ->
    URL_hostname (URI_toString targetUri) = Returned h ->
    getValue svc externalUriOpenersSettingId = Thrown e ->
    ExitPath (Thrown e, [EvGetValue externalUriOpenersSettingId])
| Configured h config o :
    scans h config ->
    configuredOpener config h gathered = Some o ->
    ExitPath (openExternal o href,
              [EvGetValue externalUriOpenersSettingId;
               EvOpenExternal o href])
| PickThrows e :
    prompts (Thrown e) ->
    ExitPath (Thrown e, [EvGetValue externalUriOpenersSettingId; shown])
| Cancelled :
    prompts (Returned None) ->
    ExitPath (Returned true, [EvGetValue externalUriOpenersSettingId; shown])
| PickedDefault picked :
    prompts (Returned (Some picked)) ->
    opener picked = OpenerUndefined ->
    ExitPath (Returned true, [EvGetValue externalUriOpenersSettingId; shown])
| PickedConfigure picked :
    prompts (Returned (Some picked)) ->
    opener picked = OpenerConfigureDefault ->
    ExitPath (match openGlobalSettings svc true externalUriOpenersSettingId true with
              | Returned _ => Returned true
              | Thrown e => Thrown e
              end,
              [EvGetValue externalUriOpenersSettingId; shown;
               EvOpenGlobalSettings true externalUriOpenersSettingId true])
| PickedOpener picked o :
    prompts (Returned (Some picked)) ->
    opener picked = OpenerEntry o ->
    ExitPath (openExternal o href,
              [EvGetValue externalUriOpenersSettingId; shown;
               EvOpenExternal o href]).
End Paths.

(** Opens the facts on the path of a request, so that two descriptions of
    the same request can be compared. *)
Ltac same_scan :=
  repeat match goal with
    | H : scans _ _ _ _ _ _ _ _ |- _ =>
        destruct H as (? & ? & ? & ? & ?)
    | H : prompts _ _ _ _ _ _ _ _ |- _ =>
        destruct H as ((? & ? & ? & ?) & ?)
    end;
  subst; try congruence.

(** ** A small platform and a few collaborators, to run the model on *)

Module Example.
(** A URI is kept as its string form; parsing adds the trailing slash of
    an empty path, as [URI.parse(s).toString()] does. *)
Definition URI := string.

Definition parse (s : string) : outcome URI :=
  if String.eqb s EmptyString then Thrown "UriError"
  else if String.eqb s "https://example.com" then Returned "https://example.com/"
  else Returned s.

Definition toString (u : URI) : string := u.

Definition url_hostname (s : string) : outcome string :=
  if String.eqb s "https://example.com/" then Returned "example.com"
  else if String.eqb s "https://other.org/" then Returned "other.org"
  else Thrown "TypeError: Invalid URL".

Definition localize (key message : string) (args : list string) : string :=
  message.

Definition settingId : string := "workbench.externalUriOpeners".

Definition openerA : @ExternalOpenerEntry URI :=
  {| id := "a"; label := "A"; openExternal := fun _ => Returned true |}.
Definition openerB : @ExternalOpenerEntry URI :=
  {| id := "b"; label := "B"; openExternal := fun _ => Returned false |}.
Definition openerC : @ExternalOpenerEntry URI :=
  {| id := "c"; label := "C"; openExternal := fun _ => Thrown "no browser" |}.

Definition setA : ExternalOpenerSet := {| openers := [openerA]; dispose := 1 |}.
Definition setB : ExternalOpenerSet := {| openers := [openerB]; dispose := 2 |}.
Definition setC : ExternalOpenerSet := {| openers := [openerC]; dispose := 3 |}.
Definition setEmpty : @ExternalOpenerSet URI := {| openers := []; dispose := 7 |}.

Definition P1 : IExternalOpenerProvider :=
  {| provideExternalOpeners := fun _ => Returned (Some setA) |}.
Definition P2 : IExternalOpenerProvider :=
  {| provideExternalOpeners := fun _ => Returned (Some setB) |}.
Definition P3 : IExternalOpenerProvider :=
  {| provideExternalOpeners := fun _ => Returned (Some setC) |}.
Definition Pundefined : @IExternalOpenerProvider URI :=
  {| provideExternalOpeners := fun _ => Returned None |}.
Definition Pempty : IExternalOpenerProvider :=
  {| provideExternalOpeners := fun _ => Returned (Some setEmpty) |}.
Definition Prejects : @IExternalOpenerProvider URI :=
  {| provideExternalOpeners := fun _ => Thrown "provider failed" |}.

(** Services with a fixed configuration and a fixed answer of the picker. *)
Definition services (config : list ExternalUriOpenerConfiguration)
    (picked : option (@PickItem URI)) : Services :=
  {| getValue := fun _ => Returned (Some config);
     openGlobalSettings := fun _ _ _ => Returned tt;
     pick := fun _ _ => Returned picked |}.

(** Disposable objects whose [dispose()] returns. *)
Definition quiet (d : disposable) : outcome unit := Returned tt.

(** Disposable objects of which the one numbered [bad] throws. *)
Definition failing (bad : disposable) (d : disposable) : outcome unit :=
  if Nat.eqb d bad then Thrown "dispose failed" else Returned tt.

Definition dispose_error (errors : list error) : error :=
  match errors with
  | [e] => e
  | _ => "several errors while disposing"
  end.

(** A request with disposable objects that behave as [disposing] says. *)
Definition run_with (disposing : disposable -> outcome unit)
    (svc : Services) (providers : list IExternalOpenerProvider)
    (href : Href) : M bool :=
  ExternalUriOpenerService_openExternal
    parse toString url_hostname localize settingId disposing dispose_error
    svc providers href.

(** A request with disposable objects whose [dispose()] returns. *)
Definition run (svc : Services) (providers : list IExternalOpenerProvider)
    (href : Href) : M bool :=
  run_with quiet svc providers href.

(** Services whose settings editor cannot be opened. *)
Definition services_without_settings (picked : option (@PickItem URI))
  : Services :=
  {| getValue := fun _ => Returned (Some []);
     openGlobalSettings := fun _ _ _ => Thrown "settings failed";
     pick := fun _ _ => Returned picked |}.

Definition href0 : @Href URI := HrefString "https://example.com".
Definition uri0 : URI := "https://example.com/".

Definition entry (h i : string) : ExternalUriOpenerConfiguration :=
  {| hostname := h; entry_id := i |}.

(** Two entries that are skipped, the one that delegates to [openerB],
    and a later one that would delegate to [openerA]. *)
Definition config0 : list ExternalUriOpenerConfiguration :=
  [ entry "example.com" "zz"; entry "other.org" "a";
    entry "example.com" "b"; entry "example.com" "a" ].

(** The picker's item for an opener, and its two fixed items. *)
Definition itemOf (o : @ExternalOpenerEntry URI) : PickItem :=
  {| pick_label := label o; opener := OpenerEntry o |}.
Definition itemDefault : @PickItem URI :=
  {| pick_label := "Default"; opener := OpenerUndefined |}.
Definition itemConfigure : @PickItem URI :=
  {| pick_label := "Configure default opener..."; opener := OpenerConfigureDefault |}.

(** The queries of the gathering loop and the picker as it is shown. *)
Definition queries (ps : list (@IExternalOpenerProvider URI))
  : list (@event URI) :=
  map (fun p => EvProvideExternalOpeners p uri0) ps.
Definition picker (gathered : list (@ExternalOpenerEntry URI))
  : @event URI :=
  EvPick (pickItems localize gathered) (placeHolder toString localize uri0).
End Example.


(** ** More of the service: what the picker offers, registration *)

Section Offers.
Context {URI : Type}.

Definition is_provide (ev : @event URI) : bool :=
  match ev with EvProvideExternalOpeners _ _ => true | _ => false end.

(** The openers that the items of a picker carry, in the order of the items. *)
Fixpoint item_openers (its : list (@QuickPickInput URI))
  : list ExternalOpenerEntry :=
  match its with
  | [] => []
  | Item it :: rest =>
      match opener it with
      | OpenerEntry o => o :: item_openers rest
      | _ => item_openers rest
      end
  | Separator :: rest => item_openers rest
  end.

(** The labels of the items, [None] for a separator. *)
Definition item_labels (its : list (@QuickPickInput URI))
  : list (option string) :=
  map (fun i => match i with
                | Item it => Some (pick_label it)
                | Separator => None
                end) its.

Definition is_default_item (i : @QuickPickInput URI) : bool :=
  match i with
  | Item it => match opener it with OpenerUndefined => true | _ => false end
  | Separator => false
  end.

Definition is_configure_item (i : @QuickPickInput URI) : bool :=
  match i with
  | Item it =>
      match opener it with OpenerConfigureDefault => true | _ => false end
  | Separator => false
  end.

(** The services with another answer of [configurationService.getValue]. *)
Definition with_getValue
    (value : option (list ExternalUriOpenerConfiguration))
    (svc : @Services URI) : Services :=
  {| getValue := fun _ => Returned value;
     openGlobalSettings := openGlobalSettings svc;
     pick := pick svc |}.
End Offers.

(** ** Registration of providers *)

Section LinkedList.
Context {A : Type}.

(** Modelled from the spec: [LinkedList] of [vs/base/common/linkedList] is
    imported, not defined, by this file. It is an ordered collection:
    [push] adds an element at the end and returns the function that removes
    the node it created, and the list is iterated in insertion order. A node
    is identified by a number that no other node of the list ever had. *)
Record LinkedList : Type := {
  nodes : list (nat * A);
  fresh : nat
}.

Definition LinkedList_new : LinkedList := {| nodes := []; fresh := 0 |}.

(** [list.push(a)]: the new list and the node that the returned function
    removes. *)
Definition LinkedList_push (a : A) (l : LinkedList) : LinkedList * nat :=
  ({| nodes := nodes l ++ [(fresh l, a)]; fresh := S (fresh l) |}, fresh l).

(** A call of the function that [push] returned for [node]. *)
Definition LinkedList_remove (node : nat) (l : LinkedList) : LinkedList :=
  {| nodes := filter (fun n => negb (Nat.eqb (fst n) node)) (nodes l);
     fresh := fresh l |}.

(** The elements as [for (const x of list)] meets them. *)
Definition LinkedList_elements (l : LinkedList) : list A :=
  map snd (nodes l).

(** What every list built by [push] and removals satisfies. *)
Definition LinkedList_wf (l : LinkedList) : Prop :=
  Forall (fun n => fst n < fresh l) (nodes l).
End LinkedList.
Arguments LinkedList A : clear implicits.

Section Registering.
Context {URI : Type}.

(** The field [_externalOpenerProviders], the state of the service. *)
Definition ExternalOpenerProviders : Type :=
  LinkedList (@IExternalOpenerProvider URI).

(** [registerExternalOpenerProvider], lines 58-61: the new state and the
    node that [dispose] of the returned disposable removes. *)
Definition registerExternalOpenerProvider
    (provider : @IExternalOpenerProvider URI)
    (this : ExternalOpenerProviders) : ExternalOpenerProviders * nat :=
  LinkedList_push provider this.

(** [dispose()] of the disposable that a registration returned. *)
Definition registration_dispose (node : nat) (this : ExternalOpenerProviders)
  : ExternalOpenerProviders :=
  LinkedList_remove node this.

(** Registrations one after the other; the nodes are those created. *)
Fixpoint register_all (providers : list (@IExternalOpenerProvider URI))
    (this : ExternalOpenerProviders) : ExternalOpenerProviders * list nat :=
  match providers with
  | [] => (this, [])
  | p :: rest =>
      let (this1, node) := registerExternalOpenerProvider p this in
      let (this2, more) := register_all rest this1 in
      (this2, node :: more)
  end.

End Registering.

Module MoreExamples.
Import Example.

(** Services whose configuration cannot be read. *)
Definition services_without_configuration : @Services URI :=
  {| getValue := fun _ => Thrown "configuration failed";
     openGlobalSettings := fun _ _ _ => Returned tt;
     pick := fun _ _ => Returned None |}.

(** Services whose picker rejects. *)
Definition services_without_picker : @Services URI :=
  {| getValue := fun _ => Returned (Some []);
     openGlobalSettings := fun _ _ _ => Returned tt;
     pick := fun _ _ => Thrown "picker failed" |}.

(** Services whose setting is not defined. *)
Definition services_undefined (picked : option (@PickItem URI)) : Services :=
  {| getValue := fun _ => Returned None;
     openGlobalSettings := fun _ _ _ => Returned tt;
     pick := fun _ _ => Returned picked |}.

(** An href whose URI has no hostname that [URL] accepts. *)
Definition hrefMail : @Href URI := HrefString "mailto:someone".
Definition uriMail : URI := "mailto:someone".

(** A service with the providers [P1] and [P2] registered in that order. *)
Definition registered12 : LinkedList (@IExternalOpenerProvider URI) :=
  fst (register_all [P1; P2] LinkedList_new).
End MoreExamples.

(** ** Facts on the trace monad *)

Section TraceFacts.
Context {E : Type}.

Lemma bind_call {A B} (ev : E) (o : outcome A) (k : A -> M B) :
  bind (call ev o) k =
  match o with
  | Returned a => (fst (k a), ev :: snd (k a))
  | Thrown e => (Thrown e, [ev])
  end.
Proof.
  unfold bind, call. destruct o as [a|e]; [|reflexivity].
  now destruct (k a).
Qed.

Lemma bind_lift {A B} (o : outcome A) (k : A -> M B) :
  bind (E:=E) (lift o) k =
  match o with
  | Returned a => k a
  | Thrown e => (Thrown e, [])
  end.
Proof.
  unfold bind, lift. destruct o as [a|e]; [|reflexivity].
  now destruct (k a).
Qed.

Lemma bind_ret {A B} (a : A) (k : A -> M B) :
  bind (E:=E) (Returned a, []) k = k a.
Proof. unfold bind. now destruct (k a). Qed.

Lemma filter_none (f : E -> bool) (t : list E) :
  Forall (fun ev => f ev = false) t -> filter f t = [].
Proof.
  induction 1 as [|ev t Hev _ IH]; simpl; [reflexivity|].
  now rewrite Hev.
Qed.

Lemma filter_map_none {X} (f : E -> bool) (g : X -> E) (xs : list X) :
  (forall x, f (g x) = false) -> filter f (map g xs) = [].
Proof.
  intros Hf. apply filter_none, Forall_forall.
  intros ev Hin. apply in_map_iff in Hin as [x [<- _]]. apply Hf.
Qed.
End TraceFacts.

(** ** Properties of the service *)

Section Properties.
Context {URI : Type}.
Variable URI_parse : string -> outcome URI.
Variable URI_toString : URI -> string.
Variable URL_hostname : string -> outcome string.
Variable localize : string -> string -> list string -> string.
Variable externalUriOpenersSettingId : string.
Variable disposing : disposable -> outcome unit.
Variable dispose_error : list error -> error.

Local Abbreviation provider := (@IExternalOpenerProvider URI).
Local Abbreviation entry := (@ExternalOpenerEntry URI).
Local Abbreviation trace := (list (@event URI)).
Local Abbreviation settingId := externalUriOpenersSettingId.
Local Abbreviation run :=
  (ExternalUriOpenerService_openExternal
     URI_parse URI_toString URL_hostname localize settingId
     disposing dispose_error).
Local Abbreviation after_release_ :=
  (after_release disposing dispose_error).
Local Abbreviation decide_ :=
  (decide URI_toString URL_hostname localize settingId).
Local Abbreviation items := (pickItems localize).
Local Abbreviation prompt := (placeHolder URI_toString localize).
Local Abbreviation queried u ps :=
  (map (fun p : provider => EvProvideExternalOpeners p u) ps).
Local Abbreviation released s := (map (@EvDispose URI) s).

(** *** The disposable store *)

Lemma DisposableStore_add_In d d' (s : DisposableStore) :
  In d' (DisposableStore_add d s) <-> In d' s \/ d' = d.
Proof.
  unfold DisposableStore_add.
  destruct (existsb (Nat.eqb d) s) eqn:Hex.
  - apply existsb_exists in Hex as [x [Hin Heq]].
    apply Nat.eqb_eq in Heq. subst x.
    split; [auto|]. intros [H| ->]; assumption.
  - rewrite in_app_iff. simpl. split.
    + intros [H|[->|[]]]; auto.
    + intros [H| ->]; auto.
Qed.

Lemma DisposableStore_add_NoDup d (s : DisposableStore) :
  NoDup s -> NoDup (DisposableStore_add d s).
Proof.
  intros Hs. unfold DisposableStore_add.
  destruct (existsb (Nat.eqb d) s) eqn:Hex; [assumption|].
  apply NoDup_app; [assumption| repeat constructor; intros [] |].
  intros x Hx [Heq|[]]. subst x.
  assert (existsb (Nat.eqb d) s = true) as Habs; [|congruence].
  apply existsb_exists. exists d. split; [assumption|apply Nat.eqb_refl].
Qed.

Lemma released_once d (s : DisposableStore) :
  NoDup s -> In d s ->
  length (filter (is_dispose_of d) (released s)) = 1.
Proof.
  induction 1 as [|x s Hx Hs IH]; simpl; [intros []|].
  intros [->|Hin].
  - rewrite Nat.eqb_refl. simpl. f_equal.
    rewrite filter_none; [reflexivity|].
    apply Forall_forall. intros ev Hev.
    apply in_map_iff in Hev as [y [<- Hy]]. simpl.
    apply Nat.eqb_neq. intros ->. contradiction.
  - destruct (Nat.eqb d x) eqn:Hdx.
    + apply Nat.eqb_eq in Hdx. subst x. contradiction.
    + now apply IH.
Qed.


(** *** The gathering loop *)

Lemma gather_step (p : provider) ps u s acc :
  gather (p :: ps) u s acc =
  match provideExternalOpeners p u with
  | Returned (Some set) =>
      let r := gather ps u (DisposableStore_add (dispose set) s)
                      (acc ++ openers set) in
      (fst r, EvProvideExternalOpeners p u :: snd r)
  | Returned None =>
      let r := gather ps u s acc in
      (fst r, EvProvideExternalOpeners p u :: snd r)
  | Thrown e => (Thrown e, [EvProvideExternalOpeners p u])
  end.
Proof.
  cbn [gather]. rewrite bind_call.
  destruct (provideExternalOpeners p u) as [[set|]|e]; reflexivity.
Qed.

(** A completed gathering queried every provider, in order, flattened
    their openers in order and retained the handle of every set that a
    provider returned. *)
Lemma gather_returns (ps : list provider) u s acc s' acc' t :
  gather ps u s acc = (Returned (s', acc'), t) ->
  t = queried u ps
  /\ acc' = acc ++ flat_map (offered u) ps
  /\ (NoDup s -> NoDup s')
  /\ (forall d, In d s' <->
        In d s \/ exists p set, In p ps
                   /\ provideExternalOpeners p u = Returned (Some set)
                   /\ dispose set = d).
Proof.
  revert s acc t. induction ps as [|p ps IH]; intros s acc t.
  - simpl. unfold ret. intros [= <- <- <-].
    rewrite app_nil_r. repeat split; auto.
    intros [H|(p & set & [] & _)]. exact H.
  - rewrite gather_step.
    assert (Hoff := eq_refl (offered u p)). unfold offered at 2 in Hoff.
    destruct (provideExternalOpeners p u) as [[set|]|e] eqn:Hp;
      [| |discriminate].
    + destruct (gather ps u _ _) as [r t'] eqn:Hg. simpl.
      intros [= -> <-].
      destruct (IH _ _ _ Hg) as (-> & -> & Hnd & Hin).
      split; [reflexivity|]. split.
      { simpl. rewrite Hoff. now rewrite app_assoc. }
      split.
      { intros Hs. apply Hnd. now apply DisposableStore_add_NoDup. }
      intros d. rewrite Hin, DisposableStore_add_In. split.
      * intros [[H| ->]|(q & set' & Hq & Hset & Hd)]; auto.
        -- right. exists p, set. simpl. auto.
        -- right. exists q, set'. simpl. auto.
      * intros [H|(q & set' & [<-|Hq] & Hset & Hd)]; auto.
        -- left. right. congruence.
        -- right. exists q, set'. auto.
    + destruct (gather ps u _ _) as [r t'] eqn:Hg. simpl.
      intros [= -> <-].
      destruct (IH _ _ _ Hg) as (-> & -> & Hnd & Hin).
      split; [reflexivity|]. split.
      { simpl. now rewrite Hoff. }
      split; [assumption|].
      intros d. rewrite Hin. split.
      * intros [H|(q & set' & Hq & Hset & Hd)]; auto.
        right. exists q, set'. simpl. auto.
      * intros [H|(q & set' & [<-|Hq] & Hset & Hd)]; auto.
        -- congruence.
        -- right. exists q, set'. auto.
Qed.

(** Providers that offer nothing let the gathering complete with the
    list of openers unchanged. *)
Lemma gather_offers_nothing (ps : list provider) u s acc :
  Forall (offers_nothing u) ps ->
  exists s', gather ps u s acc = (Returned (s', acc), queried u ps).
Proof.
  intros H. revert s. induction H as [|p ps Hp _ IH]; intros s.
  - exists s. reflexivity.
  - rewrite gather_step. destruct Hp as [Hp|(set & Hp & Hempty)]; rewrite Hp.
    + destruct (IH s) as [s' ->]. exists s'. reflexivity.
    + rewrite Hempty, app_nil_r.
      destruct (IH (DisposableStore_add (dispose set) s)) as [s' ->].
      exists s'. reflexivity.
Qed.

(** A provider that rejects ends the gathering: the rejection is the
    outcome and the providers after it are not queried. *)
Lemma gather_rejects (pre post : list provider) p u e s acc :
  Forall (answers u) pre ->
  provideExternalOpeners p u = Thrown e ->
  gather (pre ++ p :: post) u s acc = (Thrown e, queried u (pre ++ [p])).
Proof.
  intros Hpre Hp. revert s acc.
  induction Hpre as [|q pre [a Hq] _ IH]; intros s acc.
  - simpl app. rewrite gather_step, Hp. reflexivity.
  - simpl app. rewrite gather_step, Hq.
    destruct a as [set|]; rewrite IH; reflexivity.
Qed.

(** *** The loop over the configuration *)

Lemma scanConfig_configuredOpener config h (ops : list entry) href :
  scanConfig config h ops href =
  match configuredOpener config h ops with
  | Some o =>
      (match openExternal o href with
       | Returned b => Returned (Some b)
       | Thrown e => Thrown e
       end, [EvOpenExternal o href])
  | None => (Returned None, [])
  end.
Proof.
  induction config as [|e rest IH]; simpl; [reflexivity|].
  destruct (String.eqb (hostname e) h); [|exact IH].
  destruct (find _ ops) as [o|]; [|exact IH].
  unfold bind, call, ret. destruct (openExternal o href); reflexivity.
Qed.

Lemma find_none_existsb {A} (f : A -> bool) (l : list A) :
  existsb f l = false -> find f l = None.
Proof.
  induction l as [|x l IH]; simpl; [reflexivity|].
  destruct (f x); simpl; [discriminate|exact IH].
Qed.

Lemma configuredOpener_skips pre config h (ops : list entry) :
  Forall (fun e => entry_applies h ops e = false) pre ->
  configuredOpener (pre ++ config) h ops = configuredOpener config h ops.
Proof.
  induction 1 as [|e pre He _ IH]; simpl; [reflexivity|].
  unfold entry_applies in He.
  destruct (String.eqb (hostname e) h); [|exact IH].
  simpl in He. now rewrite (find_none_existsb _ _ He).
Qed.

Lemma configuredOpener_here e post h (ops : list entry) o :
  hostname e = h ->
  find (fun o => String.eqb (id o) (entry_id e)) ops = Some o ->
  configuredOpener (e :: post) h ops = Some o.
Proof.
  intros <- Hfind. simpl. now rewrite String.eqb_refl, Hfind.
Qed.


(** *** The try block *)

Local Abbreviation exits :=
  (ExitPath URI_toString URL_hostname localize settingId).

Lemma resolvePicked_eq svc href (picked : option (@PickItem URI)) :
  resolvePicked settingId svc href picked =
  match picked with
  | None => (Returned true, [])
  | Some it =>
      match opener it with
      | OpenerUndefined => (Returned true, [])
      | OpenerConfigureDefault =>
          (match openGlobalSettings svc true settingId true with
           | Returned _ => Returned true
           | Thrown e => Thrown e
           end, [EvOpenGlobalSettings true settingId true])
      | OpenerEntry o => (openExternal o href, [EvOpenExternal o href])
      end
  end.
Proof.
  unfold resolvePicked. destruct picked as [it|]; [|reflexivity].
  destruct (opener it); try reflexivity.
  rewrite bind_call. now destruct (openGlobalSettings svc true settingId true).
Qed.

(** The try block ends by one of the exit paths. *)
Lemma decide_exits svc u href (ops : list entry) :
  exits svc u href ops (decide_ svc u href ops).
Proof.
  unfold decide. destruct ops as [|o0 ops'] eqn:Hops.
  { now apply NoOpener. }
  rewrite <- Hops. assert (ops <> []) as Hne by (subst; discriminate).
  replace (Nat.eqb (length ops) 0) with false by (subst; reflexivity).
  clear Hops o0 ops'.
  rewrite bind_lift.
  destruct (URL_hostname (URI_toString u)) as [h|e] eqn:Hh;
    [|now apply HostnameThrows].
  rewrite bind_call.
  destruct (getValue svc settingId) as [value|e] eqn:Hv;
    [|now apply GetValueThrows with h].
  assert (scans URI_toString URL_hostname settingId svc u ops h
                (or_empty value)) as Hscans.
  { split; [assumption|]. split; [assumption|]. now exists value. }
  rewrite scanConfig_configuredOpener.
  destruct (configuredOpener (or_empty value) h ops) as [o|] eqn:Hc.
  - replace (fst _, _ :: snd _)
      with (openExternal o href, [EvGetValue (URI:=URI) settingId; EvOpenExternal o href]).
    + now apply Configured with h (or_empty value).
    + unfold bind, ret. now destruct (openExternal o href).
  - rewrite bind_ret, bind_call.
    fold (shown URI_toString localize u ops).
    destruct (pick svc (items ops) (prompt u)) as [picked|e] eqn:Hp.
    + rewrite resolvePicked_eq.
      assert (prompts URI_toString URL_hostname localize settingId svc u ops
                      (Returned picked)) as Hprompts.
      { split; [|assumption]. now exists h, (or_empty value). }
      destruct picked as [it|]; [|now apply Cancelled].
      destruct (opener it) as [| |o] eqn:Hit; simpl.
      * now apply PickedDefault with it.
      * now apply PickedConfigure with it.
      * now apply PickedOpener with it.
    + apply PickThrows. split; [|assumption]. now exists h, (or_empty value).
Qed.

(** *** The whole request *)

Lemma after_release_quiet {A} (s : DisposableStore) (r : outcome A) :
  dispose_errors disposing s = [] -> after_release_ s r = r.
Proof. unfold after_release. now intros ->. Qed.

Lemma after_release_returned {A} (s : DisposableStore) (r : outcome A) a :
  after_release_ s r = Returned a ->
  r = Returned a /\ dispose_errors disposing s = [].
Proof.
  unfold after_release.
  destruct (dispose_errors disposing s); [auto|discriminate].
Qed.

Lemma run_gathered svc ps href u s (ops : list entry) tg :
  targetUri_of URI_parse href = Returned u ->
  gather ps u DisposableStore_new [] = (Returned (s, ops), tg) ->
  run svc ps href =
  (after_release_ s (fst (decide_ svc u href ops)),
   tg ++ snd (decide_ svc u href ops) ++ released s).
Proof.
  intros Hu Hg. unfold ExternalUriOpenerService_openExternal.
  rewrite bind_lift, Hu. unfold bind. rewrite Hg.
  unfold try_finally, DisposableStore_dispose, after_release.
  destruct (decide_ svc u href ops) as [r td]. cbn [fst snd].
  now destruct (dispose_errors disposing s).
Qed.

Lemma gather_queries (ps : list provider) u s acc :
  exists k, snd (gather ps u s acc) = queried u (firstn k ps).
Proof.
  revert s acc. induction ps as [|p ps IH]; intros s acc.
  - exists 0. reflexivity.
  - rewrite gather_step.
    destruct (provideExternalOpeners p u) as [[set|]|e].
    + destruct (IH (DisposableStore_add (dispose set) s) (acc ++ openers set))
        as [k Hk].
      exists (S k). simpl. now rewrite Hk.
    + destruct (IH s acc) as [k Hk]. exists (S k). simpl. now rewrite Hk.
    + exists 1. reflexivity.
Qed.

Lemma gather_answers (ps : list provider) u s acc :
  Forall (answers u) ps ->
  exists s' acc', gather ps u s acc = (Returned (s', acc'), queried u ps).
Proof.
  intros H. revert s acc. induction H as [|p ps [a Hp] _ IH]; intros s acc.
  - exists s, acc. reflexivity.
  - rewrite gather_step, Hp. destruct a as [set|].
    + destruct (IH (DisposableStore_add (dispose set) s) (acc ++ openers set))
        as (s' & acc' & ->).
      exists s', acc'. reflexivity.
    + destruct (IH s acc) as (s' & acc' & ->). exists s', acc'. reflexivity.
Qed.

Lemma filter_run (f : @event URI -> bool) u (qs : list provider) td s :
  (forall p r, f (EvProvideExternalOpeners p r) = false) ->
  (forall d, f (EvDispose d) = false) ->
  filter f (queried u qs ++ td ++ released s) = filter f td.
Proof.
  intros Hp Hd. rewrite !filter_app.
  rewrite (filter_map_none f _ qs) by (intros; apply Hp).
  rewrite (filter_map_none f _ s) by (intros; apply Hd).
  now rewrite app_nil_r.
Qed.

Lemma in_run (ev : @event URI) u (qs : list provider) td s :
  (forall p r, ev <> EvProvideExternalOpeners p r) ->
  (forall d, ev <> EvDispose d) ->
  In ev (queried u qs ++ td ++ released s) -> In ev td.
Proof.
  intros Hp Hd Hin.
  apply in_app_or in Hin as [Hin|Hin].
  { apply in_map_iff in Hin as [p [Heq _]]. symmetry in Heq. now apply Hp in Heq. }
  apply in_app_or in Hin as [Hin|Hin]; [assumption|].
  apply in_map_iff in Hin as [d [Heq _]]. symmetry in Heq. now apply Hd in Heq.
Qed.

(** How a request ends: the href does not parse, a provider rejects, or
    the try block runs and the handles are released after it. *)
Lemma run_cases svc ps href :
  (exists e, run svc ps href = (Thrown e, []))
  \/ (exists u e k,
        targetUri_of URI_parse href = Returned u
        /\ run svc ps href = (Thrown e, queried u (firstn k ps)))
  \/ (exists u s ops r td,
        targetUri_of URI_parse href = Returned u
        /\ gather ps u DisposableStore_new [] = (Returned (s, ops), queried u ps)
        /\ exits svc u href ops (r, td)
        /\ run svc ps href
           = (after_release_ s r, queried u ps ++ td ++ released s)).
Proof.
  destruct (targetUri_of URI_parse href) as [u|e] eqn:Hu.
  - destruct (gather ps u DisposableStore_new []) as [[[s ops]|e] tg] eqn:Hg.
    + right; right.
      destruct (gather_returns _ _ _ _ _ _ _ Hg) as (-> & _).
      pose proof (decide_exits svc u href ops) as Hexit.
      rewrite (run_gathered svc _ _ _ _ _ _ Hu Hg).
      destruct (decide_ svc u href ops) as [r td].
      exists u, s, ops, r, td. auto.
    + right; left. destruct (gather_queries ps u DisposableStore_new []) as [k Hk].
      rewrite Hg in Hk. simpl in Hk. subst tg.
      exists u, e, k. split; [reflexivity|].
      unfold ExternalUriOpenerService_openExternal.
      rewrite bind_lift, Hu. unfold bind. now rewrite Hg.
  - left. exists e. unfold ExternalUriOpenerService_openExternal.
    now rewrite bind_lift, Hu.
Qed.

(** What the exit paths have in common. *)
Lemma exits_trace svc u href (ops : list entry) r td :
  exits svc u href ops (r, td) ->
  filter is_dispose td = []
  /\ length (filter is_open td) <= 1
  /\ length (filter is_pick td) <= 1.
Proof. inversion 1; subst; simpl; auto. Qed.

Lemma filter_dispose_of d (t : trace) :
  filter is_dispose t = [] -> filter (is_dispose_of d) t = [].
Proof.
  induction t as [|ev t IH]; simpl; [reflexivity|].
  destruct ev; simpl; try exact IH. discriminate.
Qed.

Lemma released_once_in_run d u (qs : list provider) td (s : DisposableStore) :
  NoDup s -> In d s -> filter is_dispose td = [] ->
  length (filter (is_dispose_of d) (queried u qs ++ td ++ released s)) = 1.
Proof.
  intros Hnd Hin Htd. rewrite !filter_app.
  rewrite (filter_map_none _ _ qs) by reflexivity.
  rewrite (filter_dispose_of d _ Htd). now apply released_once.
Qed.

Lemma gather_NoDup (ps : list provider) u s (ops : list entry) tg :
  gather ps u DisposableStore_new [] = (Returned (s, ops), tg) -> NoDup s.
Proof.
  intros Hg. destruct (gather_returns _ _ _ _ _ _ _ Hg) as (_ & _ & Hnd & _).
  apply Hnd. constructor.
Qed.

(** *** Release of the retained handles *)

(** C1: when the gathering step of a call completes, the handles it
    retained are released exactly once each, after every other call of the
    request and before the request completes, whichever exit path the try
    block takes and whether it returns or throws; nothing else is
    released, and the handle of every set that a provider returned is
    among the retained ones. The request ends as the try block does,
    unless a [dispose()] throws during the release. *)
Theorem openExternal_releases_each_handle_once
    svc ps href u s (ops : list entry) tg :
  targetUri_of URI_parse href = Returned u ->
  gather ps u DisposableStore_new [] = (Returned (s, ops), tg) ->
  exists r td,
    exits svc u href ops (r, td)
    /\ run svc ps href = (after_release_ s r, tg ++ td ++ released s)
    /\ filter is_dispose (tg ++ td) = []
    /\ (forall d, In d s ->
          length (filter (is_dispose_of d) (snd (run svc ps href))) = 1)
    /\ (forall p set, In p ps ->
          provideExternalOpeners p u = Returned (Some set) ->
          In (dispose set) s).
Proof.
  intros Hu Hg.
  pose proof (decide_exits svc u href ops) as Hexit.
  pose proof (run_gathered svc _ _ _ _ _ _ Hu Hg) as Hrun.
  destruct (decide_ svc u href ops) as [r td]. cbn [fst snd] in Hrun.
  destruct (gather_returns _ _ _ _ _ _ _ Hg) as (-> & _ & Hnd & Hin).
  destruct (exits_trace _ _ _ _ _ _ Hexit) as (Hnone & _).
  assert (filter is_dispose (queried u ps ++ td) = []) as Hbefore.
  { rewrite filter_app, Hnone, app_nil_r. now apply filter_map_none. }
  exists r, td. repeat split; try assumption.
  - intros d Hd. rewrite Hrun. cbn [snd].
    apply released_once_in_run; try assumption. apply Hnd. constructor.
  - intros p set Hp Hset. apply Hin. right. now exists p, set.
Qed.

(** *** No opener gathered *)

(** C3, amended: when the flattened list of gathered openers is empty, and
    in particular when no provider is registered or every provider answers
    [undefined] or an empty set, the picker is not shown, no opener is
    invoked and every retained handle is released once; the request
    resolves to [false], unless the [dispose()] of a retained set throws
    during that release, and then it rejects with the error of the release.
    When every provider answers [undefined], and so when there is no
    provider, nothing is retained and the request resolves to [false]. *)
Theorem openExternal_without_opener svc ps href u :
  targetUri_of URI_parse href = Returned u ->
  (exists s tg, gather ps u DisposableStore_new [] = (Returned (s, []), tg))
  \/ Forall (offers_nothing u) ps ->
  exists s,
    gather ps u DisposableStore_new [] = (Returned (s, []), queried u ps)
    /\ run svc ps href
       = (after_release_ s (Returned false), queried u ps ++ released s)
    /\ filter is_pick (snd (run svc ps href)) = []
    /\ filter is_open (snd (run svc ps href)) = []
    /\ (forall d, In d s ->
          length (filter (is_dispose_of d) (snd (run svc ps href))) = 1)
    /\ (dispose_errors disposing s = [] ->
          fst (run svc ps href) = Returned false)
    /\ (Forall (fun p => provideExternalOpeners p u = Returned None) ps ->
          s = [] /\ fst (run svc ps href) = Returned false).
Proof.
  intros Hu Hempty.
  assert (exists s, gather ps u DisposableStore_new []
                    = (Returned (s, []), queried u ps)) as [s Hg].
  { destruct Hempty as [(s & tg & Hg)|Hall].
    - exists s. destruct (gather_returns _ _ _ _ _ _ _ Hg) as (-> & _).
      exact Hg.
    - apply gather_offers_nothing, Hall. }
  assert (run svc ps href
          = (after_release_ s (Returned false), queried u ps ++ released s))
    as Hrun.
  { now rewrite (run_gathered svc _ _ _ _ _ _ Hu Hg). }
  exists s. rewrite Hrun. cbn [fst snd].
  change (queried u ps ++ released s)
    with (queried u ps ++ [] ++ released s).
  rewrite !filter_run by reflexivity.
  split; [assumption|]. split; [reflexivity|].
  split; [reflexivity|]. split; [reflexivity|]. split; [|split].
  - intros d Hd. apply released_once_in_run; auto.
    now apply gather_NoDup in Hg.
  - apply after_release_quiet.
  - intros Hnone.
    assert (s = []) as ->; [|split; reflexivity].
    destruct (gather_returns _ _ _ _ _ _ _ Hg) as (_ & _ & _ & Hin).
    destruct s as [|d s']; [reflexivity|].
    destruct (proj1 (Hin d) (or_introl eq_refl))
      as [[]|(p & set & Hp & Hset & _)].
    rewrite Forall_forall in Hnone. rewrite (Hnone p Hp) in Hset.
    discriminate.
Qed.

(** *** A provider that rejects *)

Lemma gather_app (pre rest : list provider) u s acc s' acc' :
  gather pre u s acc = (Returned (s', acc'), queried u pre) ->
  gather (pre ++ rest) u s acc =
  (fst (gather rest u s' acc'), queried u pre ++ snd (gather rest u s' acc')).
Proof.
  revert s acc. induction pre as [|q pre IH]; intros s acc.
  - simpl. unfold ret. intros [= -> ->]. now destruct (gather rest u s' acc').
  - simpl app. rewrite !gather_step.
    destruct (provideExternalOpeners q u) as [[set|]|e]; [| |discriminate];
      simpl; intros [= Hr Ht];
      (erewrite IH; [reflexivity|]);
      destruct (gather pre u _ _); simpl in *; congruence.
Qed.

(** C4: when a provider rejects during the gathering loop, the request
    rejects with that provider's error, the providers after it are not
    queried, and the handles retained from the providers queried before
    it are not released. *)
Theorem provider_rejection_skips_release svc pre p post href u e :
  targetUri_of URI_parse href = Returned u ->
  Forall (answers u) pre ->
  provideExternalOpeners p u = Thrown e ->
  exists s ops,
    gather pre u DisposableStore_new [] = (Returned (s, ops), queried u pre)
    /\ (forall q set, In q pre ->
          provideExternalOpeners q u = Returned (Some set) ->
          In (dispose set) s)
    /\ run svc (pre ++ p :: post) href = (Thrown e, queried u (pre ++ [p]))
    /\ filter is_dispose (snd (run svc (pre ++ p :: post) href)) = []
    /\ forall d, In d s ->
         ~ In (EvDispose d) (snd (run svc (pre ++ p :: post) href)).
Proof.
  intros Hu Hpre Hp.
  destruct (gather_answers pre u DisposableStore_new [] Hpre)
    as (s & ops & Hg).
  destruct (gather_returns _ _ _ _ _ _ _ Hg) as (_ & _ & _ & Hin).
  assert (run svc (pre ++ p :: post) href
          = (Thrown e, queried u (pre ++ [p]))) as Hrun.
  { unfold ExternalUriOpenerService_openExternal.
    rewrite bind_lift, Hu. unfold bind.
    now rewrite (gather_rejects pre post p u e _ _ Hpre Hp). }
  exists s, ops. rewrite Hrun. cbn [snd]. repeat split; try assumption.
  - intros q set Hq Hset. apply Hin. right. now exists q, set.
  - now apply filter_map_none.
  - intros d _ Habs. apply in_map_iff in Habs as [q [Heq _]]. discriminate.
Qed.

(** *** Which handles are retained *)


(** *** Delegation through the configuration *)

Lemma run_configured svc ps href u s (ops : list entry) tg h config o :
  targetUri_of URI_parse href = Returned u ->
  gather ps u DisposableStore_new [] = (Returned (s, ops), tg) ->
  scans URI_toString URL_hostname settingId svc u ops h config ->
  configuredOpener config h ops = Some o ->
  run svc ps href =
  (after_release_ s (openExternal o href),
   tg ++ [EvGetValue settingId; EvOpenExternal o href] ++ released s).
Proof.
  intros Hu Hg Hscans Hc.
  rewrite (run_gathered svc _ _ _ _ _ _ Hu Hg).
  pose proof (decide_exits svc u href ops) as Hexit.
  destruct (decide_ svc u href ops) as [r td].
  inversion Hexit; subst; same_scan.
  match goal with
  | H : configuredOpener _ _ ops = Some ?o' |- _ =>
      replace o' with o by congruence; reflexivity
  end.
Qed.

(** C2, amended: with a non-empty gathered list, the configuration is
    scanned in its stored order: the entries before the first one that has
    the target's hostname and the id of a gathered opener are skipped, also
    those that have the hostname but an id that no gathered opener has;
    that first entry's opener is invoked and the picker is not shown. The
    outcome of the invocation is the outcome of the request, unless the
    [dispose()] of a retained set throws during the release, and then the
    request rejects with the error of the release. *)
Theorem first_matching_entry_delegates
    svc ps href u s (ops : list entry) tg h value pre e post o :
  targetUri_of URI_parse href = Returned u ->
  gather ps u DisposableStore_new [] = (Returned (s, ops), tg) ->
  ops <> [] ->
  URL_hostname (URI_toString u) = Returned h ->
  getValue svc settingId = Returned value ->
  or_empty value = pre ++ e :: post ->
  Forall (fun e' => entry_applies h ops e' = false) pre ->
  hostname e = h ->
  find (fun o' => String.eqb (id o') (entry_id e)) ops = Some o ->
  run svc ps href =
    (after_release_ s (openExternal o href),
     tg ++ [EvGetValue settingId; EvOpenExternal o href] ++ released s)
  /\ filter is_pick (snd (run svc ps href)) = []
  /\ filter is_open (snd (run svc ps href)) = [EvOpenExternal o href]
  /\ (dispose_errors disposing s = [] ->
        fst (run svc ps href) = openExternal o href).
Proof.
  intros Hu Hg Hne Hh Hv Hcfg Hpre He Hfind.
  assert (run svc ps href =
          (after_release_ s (openExternal o href),
           tg ++ [EvGetValue settingId; EvOpenExternal o href] ++ released s))
    as Hrun.
  { apply (run_configured svc ps href u s ops tg h (or_empty value) o);
      try assumption.
    - split; [assumption|]. split; [assumption|]. now exists value.
    - rewrite Hcfg, (configuredOpener_skips _ _ _ _ Hpre).
      now apply configuredOpener_here. }
  split; [exact Hrun|]. rewrite Hrun. cbn [fst snd].
  destruct (gather_returns _ _ _ _ _ _ _ Hg) as (-> & _).
  rewrite !filter_run by reflexivity.
  split; [reflexivity|]. split; [reflexivity|]. apply after_release_quiet.
Qed.

(** C10: on the delegation through the configuration, the opener is
    invoked with the href that the request was called with: for a string
    href, neither the parsed URI nor, when it differs, its string form. *)
Theorem configured_opener_receives_raw_href
    svc ps href u s (ops : list entry) tg h config o :
  targetUri_of URI_parse href = Returned u ->
  gather ps u DisposableStore_new [] = (Returned (s, ops), tg) ->
  scans URI_toString URL_hostname settingId svc u ops h config ->
  configuredOpener config h ops = Some o ->
  filter is_open (snd (run svc ps href)) = [EvOpenExternal o href]
  /\ forall o' a, In (EvOpenExternal o' a) (snd (run svc ps href)) ->
       a = href
       /\ forall raw, href = HrefString raw ->
            a <> HrefUri u
            /\ (URI_toString u <> raw -> a <> HrefString (URI_toString u)).
Proof.
  intros Hu Hg Hscans Hc.
  rewrite (run_configured svc _ _ _ _ _ _ _ _ _ Hu Hg Hscans Hc). cbn [snd].
  destruct (gather_returns _ _ _ _ _ _ _ Hg) as (-> & _).
  split; [now rewrite filter_run by reflexivity|].
  intros o' a Hin. apply in_run in Hin; try discriminate.
  destruct Hin as [Heq|[Heq|[]]]; [discriminate|].
  injection Heq as <- <-. split; [reflexivity|].
  intros raw ->. split; [discriminate|]. congruence.
Qed.

(** *** The picker *)

(** What the picker's answer leads to, once it has been shown. *)
Lemma exits_prompted svc u href (ops : list entry) r td its ph :
  exits svc u href ops (r, td) ->
  In (EvPick its ph) td ->
  its = items ops /\ ph = prompt u
  /\ match pick svc its ph with
     | Thrown e => r = Thrown e /\ td = [EvGetValue settingId; EvPick its ph]
     | Returned None =>
         r = Returned true /\ td = [EvGetValue settingId; EvPick its ph]
     | Returned (Some picked) =>
         match opener picked with
         | OpenerUndefined =>
             r = Returned true /\ td = [EvGetValue settingId; EvPick its ph]
         | OpenerConfigureDefault =>
             r = match openGlobalSettings svc true settingId true with
                 | Returned _ => Returned true
                 | Thrown e => Thrown e
                 end
             /\ td = [EvGetValue settingId; EvPick its ph;
                      EvOpenGlobalSettings true settingId true]
         | OpenerEntry o =>
             r = openExternal o href
             /\ td = [EvGetValue settingId; EvPick its ph;
                      EvOpenExternal o href]
         end
     end.
Proof.
  intros Hexit Hin.
  inversion Hexit; subst; simpl in Hin;
    repeat match goal with
      | H : _ \/ _ |- _ => destruct H
      | H : False |- _ => destruct H
      | H : EvGetValue _ = EvPick _ _ |- _ => discriminate H
      | H : EvOpenExternal _ _ = EvPick _ _ |- _ => discriminate H
      | H : EvOpenGlobalSettings _ _ _ = EvPick _ _ |- _ => discriminate H
      | H : shown _ _ _ _ = EvPick _ _ |- _ =>
          unfold shown in H; injection H as <- <-
      | H : prompts _ _ _ _ _ _ _ ?answer |- _ =>
          destruct H as (_ & H); rewrite H
      | H : opener ?it = _ |- context [opener ?it] => rewrite H
      end;
    auto.
Qed.

Lemma run_prompted svc ps href its ph :
  In (EvPick its ph) (snd (run svc ps href)) ->
  exists u s ops r td,
    targetUri_of URI_parse href = Returned u
    /\ gather ps u DisposableStore_new [] = (Returned (s, ops), queried u ps)
    /\ exits svc u href ops (r, td)
    /\ run svc ps href
       = (after_release_ s r, queried u ps ++ td ++ released s)
    /\ In (EvPick its ph) td.
Proof.
  intros Hin.
  destruct (run_cases svc ps href)
    as [(e & Hrun)|[(u & e & k & _ & Hrun)|(u & s & ops & r & td & Hu & Hg & Hexit & Hrun)]];
    rewrite Hrun in Hin; cbn [snd] in Hin.
  - destruct Hin.
  - apply in_map_iff in Hin as [q [Heq _]]. discriminate.
  - exists u, s, ops, r, td. repeat split; try assumption.
    apply in_run in Hin; [assumption|discriminate|discriminate].
Qed.

(** C5, amended: when the picker resolves to an item that carries an
    opener, that opener is invoked exactly once, with the href the request
    was called with, and no other opener is invoked. The outcome of the
    invocation is the outcome of the request, unless the [dispose()] of a
    set retained by the gathering throws during the release, and then the
    request rejects with the error of the release. *)
Theorem picked_opener_is_invoked_once svc ps href its ph picked o :
  In (EvPick its ph) (snd (run svc ps href)) ->
  pick svc its ph = Returned (Some picked) ->
  opener picked = OpenerEntry o ->
  filter is_open (snd (run svc ps href)) = [EvOpenExternal o href]
  /\ exists u s ops,
      targetUri_of URI_parse href = Returned u
      /\ gather ps u DisposableStore_new [] = (Returned (s, ops), queried u ps)
      /\ fst (run svc ps href) = after_release_ s (openExternal o href)
      /\ (dispose_errors disposing s = [] ->
            fst (run svc ps href) = openExternal o href).
Proof.
  intros Hin Hpick Ho.
  destruct (run_prompted _ _ _ _ _ Hin)
    as (u & s & ops & r & td & Hu & Hg & Hexit & Hrun & Htd).
  destruct (exits_prompted _ _ _ _ _ _ _ _ Hexit Htd) as (_ & _ & Hend).
  rewrite Hpick, Ho in Hend. destruct Hend as [-> ->].
  rewrite Hrun. cbn [fst snd].
  split; [now rewrite filter_run by reflexivity|].
  exists u, s, ops. repeat split; try assumption.
  apply after_release_quiet.
Qed.

(** C6, amended: when the picker is shown and resolves to no item, or to
    an item that carries no opener (the Default item), no opener is invoked
    and the request resolves to [true], unless the [dispose()] of a set
    retained by the gathering throws during the release, and then the
    request rejects with the error of the release. *)
Theorem cancel_or_default_returns_true svc ps href its ph :
  In (EvPick its ph) (snd (run svc ps href)) ->
  pick svc its ph = Returned None
  \/ (exists picked, pick svc its ph = Returned (Some picked)
                     /\ opener picked = OpenerUndefined) ->
  filter is_open (snd (run svc ps href)) = []
  /\ exists u s ops,
      targetUri_of URI_parse href = Returned u
      /\ gather ps u DisposableStore_new [] = (Returned (s, ops), queried u ps)
      /\ fst (run svc ps href) = after_release_ s (Returned true)
      /\ (dispose_errors disposing s = [] ->
            fst (run svc ps href) = Returned true).
Proof.
  intros Hin Hpick.
  destruct (run_prompted _ _ _ _ _ Hin)
    as (u & s & ops & r & td & Hu & Hg & Hexit & Hrun & Htd).
  destruct (exits_prompted _ _ _ _ _ _ _ _ Hexit Htd) as (_ & _ & Hend).
  destruct Hpick as [Hpick|(picked & Hpick & Hdefault)];
    rewrite Hpick in Hend; [|rewrite Hdefault in Hend];
    destruct Hend as [-> ->]; rewrite Hrun; cbn [fst snd];
    (split; [now rewrite filter_run by reflexivity|]);
    exists u, s, ops; repeat split; try assumption;
    apply after_release_quiet.
Qed.

(** C7, amended: when the picker resolves to the item that configures the
    default opener, the settings are opened once, on the setting of the
    external URI openers and for editing, and no opener is invoked. The
    request resolves to [true] when that operation completes and no
    [dispose()] of a retained set throws during the release; it rejects
    with the operation's error when the operation rejects, and with the
    error of the release when a [dispose()] throws. *)
Theorem configure_default_opens_settings svc ps href its ph picked :
  In (EvPick its ph) (snd (run svc ps href)) ->
  pick svc its ph = Returned (Some picked) ->
  opener picked = OpenerConfigureDefault ->
  filter is_openGlobalSettings (snd (run svc ps href))
    = [EvOpenGlobalSettings true settingId true]
  /\ filter is_open (snd (run svc ps href)) = []
  /\ exists u s ops,
      targetUri_of URI_parse href = Returned u
      /\ gather ps u DisposableStore_new [] = (Returned (s, ops), queried u ps)
      /\ fst (run svc ps href)
         = after_release_ s
             match openGlobalSettings svc true settingId true with
             | Returned _ => Returned true
             | Thrown e => Thrown e
             end
      /\ (forall x, openGlobalSettings svc true settingId true = Returned x ->
            dispose_errors disposing s = [] ->
            fst (run svc ps href) = Returned true)
      /\ (forall e, openGlobalSettings svc true settingId true = Thrown e ->
            dispose_errors disposing s = [] ->
            fst (run svc ps href) = Thrown e).
Proof.
  intros Hin Hpick Ho.
  destruct (run_prompted _ _ _ _ _ Hin)
    as (u & s & ops & r & td & Hu & Hg & Hexit & Hrun & Htd).
  destruct (exits_prompted _ _ _ _ _ _ _ _ Hexit Htd) as (_ & _ & Hend).
  rewrite Hpick, Ho in Hend. destruct Hend as [-> ->].
  rewrite Hrun. cbn [fst snd]. rewrite !filter_run by reflexivity.
  split; [reflexivity|]. split; [reflexivity|].
  exists u, s, ops. split; [assumption|]. split; [assumption|].
  split; [reflexivity|].
  split; intros x Hx Hquiet; rewrite Hx; now apply after_release_quiet.
Qed.

(** *** One opener at most *)

(** C8: a request invokes at most one opener and shows the picker at most
    once; an opener is invoked with the href of the request, either
    through the configuration, and then the picker is not shown, or
    because the picker resolved to the item that carries it. *)
Theorem at_most_one_opener_per_request svc ps href :
  length (filter is_open (snd (run svc ps href))) <= 1
  /\ length (filter is_pick (snd (run svc ps href))) <= 1
  /\ forall o a,
       In (EvOpenExternal o a) (snd (run svc ps href)) ->
       a = href
       /\ (filter is_pick (snd (run svc ps href)) = []
           \/ exists its ph picked,
               In (EvPick its ph) (snd (run svc ps href))
               /\ pick svc its ph = Returned (Some picked)
               /\ opener picked = OpenerEntry o).
Proof.
  destruct (run_cases svc ps href)
    as [(e & Hrun)|[(u & e & k & _ & Hrun)|(u & s & ops & r & td & _ & _ & Hexit & Hrun)]];
    rewrite Hrun; cbn [snd].
  - simpl. split; [lia|]. split; [lia|]. intros o a [].
  - rewrite !filter_map_none by reflexivity. simpl.
    split; [lia|]. split; [lia|].
    intros o a Hin. apply in_map_iff in Hin as [q [Heq _]]. discriminate.
  - rewrite !filter_run by reflexivity.
    destruct (exits_trace _ _ _ _ _ _ Hexit) as (_ & Hopen & Hpick).
    split; [assumption|]. split; [assumption|].
    intros o a Hin. apply in_run in Hin; try discriminate.
    inversion Hexit; subst; simpl in Hin;
      repeat match goal with
        | H : _ \/ _ |- _ => destruct H
        | H : False |- _ => destruct H
        | H : EvGetValue _ = EvOpenExternal _ _ |- _ => discriminate H
        | H : shown _ _ _ _ = EvOpenExternal _ _ |- _ => discriminate H
        | H : EvOpenGlobalSettings _ _ _ = EvOpenExternal _ _ |- _ =>
            discriminate H
        | H : EvOpenExternal _ _ = EvOpenExternal _ _ |- _ =>
            injection H as <- <-
        end.
    + split; [reflexivity|]. left. reflexivity.
    + split; [reflexivity|]. right.
      match goal with
      | H : prompts _ _ _ _ _ _ _ _ |- _ => destruct H as (_ & Hanswer)
      end.
      exists (items ops), (prompt u), picked.
      split; [|split; assumption].
      apply in_or_app. right. simpl. auto.
Qed.

(** *** The gathering loop, further *)

Lemma exits_no_provide svc u href (ops : list entry) r td :
  exits svc u href ops (r, td) -> filter is_provide td = [].
Proof. inversion 1; subst; reflexivity. Qed.

(** Providers that all answer are each queried once, in the order of the
    list, and their openers are flattened in that order; an [undefined]
    answer contributes nothing. *)
Theorem gather_flattens_in_order (ps : list provider) u :
  Forall (answers u) ps ->
  exists s,
    gather ps u DisposableStore_new []
    = (Returned (s, flat_map (offered u) ps), queried u ps).
Proof.
  intros Hps.
  destruct (gather_answers ps u DisposableStore_new [] Hps) as (s & ops & Hg).
  destruct (gather_returns _ _ _ _ _ _ _ Hg) as (_ & -> & _).
  now exists s.
Qed.

(** Every provider that a request queries receives the target URI: the
    parsed href, or the href itself when it is not a string; never the raw
    string, and no provider is queried when the href does not parse. *)
Theorem queried_providers_receive_target svc ps href p resource :
  In (EvProvideExternalOpeners p resource) (snd (run svc ps href)) ->
  targetUri_of URI_parse href = Returned resource /\ In p ps.
Proof.
  intros Hin.
  destruct (run_cases svc ps href)
    as [(e & Hrun)|[(u & e & k & Hu & Hrun)|(u & s & ops & r & td & Hu & _ & Hexit & Hrun)]];
    rewrite Hrun in Hin; cbn [snd] in Hin.
  - destruct Hin.
  - apply in_map_iff in Hin as [q [[= <- <-] Hq]].
    split; [assumption|].
    rewrite <- (firstn_skipn k ps). apply in_or_app. now left.
  - apply in_app_or in Hin as [Hin|Hin].
    + apply in_map_iff in Hin as [q [[= <- <-] Hq]]. now split.
    + apply in_app_or in Hin as [Hin|Hin].
      * assert (In (EvProvideExternalOpeners p resource)
                   (filter is_provide td)) as Habs.
        { apply filter_In. now split. }
        rewrite (exits_no_provide _ _ _ _ _ _ Hexit) in Habs. destruct Habs.
      * apply in_map_iff in Hin as [d [Heq _]]. discriminate.
Qed.

(** *** Failures before the picker *)

(** A string href that does not parse rejects the request with the parse
    error before any provider is queried. *)
Theorem unparsable_href_rejects_first svc ps raw e :
  URI_parse raw = Thrown e ->
  run svc ps (HrefString raw) = (Thrown e, []).
Proof.
  intros Hparse. unfold ExternalUriOpenerService_openExternal.
  rewrite bind_lift. cbn [targetUri_of]. now rewrite Hparse.
Qed.

(** When openers were gathered and the hostname of the target cannot be
    derived, the configuration is not read, the picker is not shown, no
    opener is invoked, and the retained handles are released; the request
    rejects with that error, or with the error of the release when a
    [dispose()] throws during it. *)
Theorem hostname_failure_releases svc ps href u s (ops : list entry) tg e :
  targetUri_of URI_parse href = Returned u ->
  gather ps u DisposableStore_new [] = (Returned (s, ops), tg) ->
  ops <> [] ->
  URL_hostname (URI_toString u) = Thrown e ->
  run svc ps href = (after_release_ s (Thrown e), tg ++ released s)
  /\ (dispose_errors disposing s = [] -> fst (run svc ps href) = Thrown e).
Proof.
  intros Hu Hg Hne Hh. rewrite (run_gathered svc _ _ _ _ _ _ Hu Hg).
  assert (decide_ svc u href ops = (Thrown e, [])) as ->;
    [|split; [reflexivity|apply after_release_quiet]].
  unfold decide. destruct ops as [|o ops']; [contradiction|].
  cbn [length Nat.eqb]. now rewrite bind_lift, Hh.
Qed.

(** When the configuration cannot be read, the picker is not shown, no
    opener is invoked, and the retained handles are released after the one
    read; the request rejects with that error, or with the error of the
    release when a [dispose()] throws during it. *)
Theorem configuration_failure_releases
    svc ps href u s (ops : list entry) tg h e :
  targetUri_of URI_parse href = Returned u ->
  gather ps u DisposableStore_new [] = (Returned (s, ops), tg) ->
  ops <> [] ->
  URL_hostname (URI_toString u) = Returned h ->
  getValue svc settingId = Thrown e ->
  run svc ps href
  = (after_release_ s (Thrown e), tg ++ [EvGetValue settingId] ++ released s)
  /\ (dispose_errors disposing s = [] -> fst (run svc ps href) = Thrown e).
Proof.
  intros Hu Hg Hne Hh Hv. rewrite (run_gathered svc _ _ _ _ _ _ Hu Hg).
  assert (decide_ svc u href ops = (Thrown e, [EvGetValue settingId]))
    as ->; [|split; [reflexivity|apply after_release_quiet]].
  unfold decide. destruct ops as [|o ops']; [contradiction|].
  cbn [length Nat.eqb]. now rewrite bind_lift, Hh, bind_call, Hv.
Qed.

(** *** The picker, further *)


(** When the picker rejects, no opener is invoked, the settings are not
    opened, and the handles retained by the gathering are released; the
    request rejects with the picker's error, or with the error of the
    release when a [dispose()] throws during it. *)
Theorem picker_failure_releases svc ps href its ph e :
  In (EvPick its ph) (snd (run svc ps href)) ->
  pick svc its ph = Thrown e ->
  exists u s ops,
    gather ps u DisposableStore_new [] = (Returned (s, ops), queried u ps)
    /\ run svc ps href =
       (after_release_ s (Thrown e),
        queried u ps ++ [EvGetValue settingId; EvPick its ph] ++ released s)
    /\ (dispose_errors disposing s = [] -> fst (run svc ps href) = Thrown e).
Proof.
  intros Hin Hpick.
  destruct (run_prompted _ _ _ _ _ Hin)
    as (u & s & ops & r & td & _ & Hg & Hexit & Hrun & Htd).
  destruct (exits_prompted _ _ _ _ _ _ _ _ Hexit Htd) as (_ & _ & Hend).
  rewrite Hpick in Hend. destruct Hend as [-> ->].
  exists u, s, ops. split; [assumption|]. split; [assumption|].
  rewrite Hrun. apply after_release_quiet.
Qed.

Lemma pickItems_openers (ops : list entry) :
  item_openers (items ops) = ops.
Proof.
  unfold pickItems. induction ops as [|o ops IH]; simpl; [reflexivity|].
  now rewrite IH.
Qed.

(** The picker offers the gathered openers, each once and in their order:
    the item at the position of an opener carries that opener under the
    opener's own label. After them come the item labelled Default, which
    carries no opener, a separator, and the item that configures the
    default opener, under its localized label. An item of the list that
    carries an opener carries a gathered one under that opener's label. *)
Theorem picker_offers_each_gathered_opener (ops : list entry) :
  item_openers (items ops) = ops
  /\ (forall i o, nth_error ops i = Some o ->
        nth_error (items ops) i
        = Some (Item {| pick_label := label o; opener := OpenerEntry o |}))
  /\ skipn (length ops) (items ops)
     = [ Item {| pick_label := "Default"; opener := OpenerUndefined |};
         Separator;
         Item {| pick_label := localize "selectOpenerConfigureTitle"
                                        "Configure default opener..." [];
                 opener := OpenerConfigureDefault |} ]
  /\ (forall it o, In (Item it) (items ops) -> opener it = OpenerEntry o ->
        In o ops /\ pick_label it = label o).
Proof.
  split; [apply pickItems_openers|]. unfold pickItems. split; [|split].
  - intros i o Hi.
    rewrite nth_error_app1
      by (rewrite length_map; apply nth_error_Some; congruence).
    now rewrite nth_error_map, Hi.
  - rewrite skipn_app, length_map, Nat.sub_diag, skipn_all2
      by (rewrite length_map; lia).
    reflexivity.
  - intros it o Hin Ho. apply in_app_or in Hin as [Hin|Hin].
    + apply in_map_iff in Hin as [o' [[= <-] Ho']].
      cbn [opener] in Ho. injection Ho as <-. now split.
    + simpl in Hin.
      destruct Hin as [[= <-]|[Habs|[[= <-]|[]]]];
        try discriminate Habs; discriminate Ho.
Qed.

(** When the picker is shown, its items are those of the openers that the
    providers returned for the target URI, flattened in the order of the
    providers, and its prompt is the one for the target URI. *)
Theorem picker_shows_what_was_gathered svc ps href its ph :
  In (EvPick its ph) (snd (run svc ps href)) ->
  exists u,
    targetUri_of URI_parse href = Returned u
    /\ its = items (flat_map (offered u) ps)
    /\ item_openers its = flat_map (offered u) ps
    /\ ph = prompt u.
Proof.
  intros Hin.
  destruct (run_prompted _ _ _ _ _ Hin)
    as (u & s & ops & r & td & Hu & Hg & Hexit & _ & Htd).
  destruct (exits_prompted _ _ _ _ _ _ _ _ Hexit Htd) as (-> & -> & _).
  destruct (gather_returns _ _ _ _ _ _ _ Hg) as (_ & Hops & _).
  simpl in Hops. subst ops. exists u. repeat split; try assumption.
  apply pickItems_openers.
Qed.

(** *** When the picker is shown *)

Lemma configuredOpener_none config h (ops : list entry) :
  configuredOpener config h ops = None <->
  Forall (fun e => entry_applies h ops e = false) config.
Proof.
  split.
  - induction config as [|e rest IH]; simpl; [constructor|].
    destruct (String.eqb (hostname e) h) eqn:Hh.
    + destruct (find _ ops) as [o|] eqn:Hfind; [discriminate|].
      intros Hrest. constructor; [|now apply IH].
      unfold entry_applies. rewrite Hh. simpl.
      destruct (existsb _ ops) eqn:Hex; [|reflexivity].
      apply existsb_exists in Hex as [o [Hin Ho]].
      now rewrite (find_none _ _ Hfind o Hin) in Ho.
    + intros Hrest. constructor; [|now apply IH].
      unfold entry_applies. now rewrite Hh.
  - intros Hall.
    rewrite <- (app_nil_r config), (configuredOpener_skips _ _ _ _ Hall).
    reflexivity.
Qed.

Lemma configuredOpener_some config h (ops : list entry) o :
  configuredOpener config h ops = Some o ->
  In o ops
  /\ exists e, In e config /\ hostname e = h /\ entry_id e = id o.
Proof.
  induction config as [|e rest IH]; simpl; [discriminate|].
  destruct (String.eqb (hostname e) h) eqn:Hh.
  - destruct (find _ ops) as [o'|] eqn:Hfind.
    + intros [= <-]. apply find_some in Hfind as [Hin Hid].
      split; [assumption|]. exists e. split; [now left|].
      apply String.eqb_eq in Hh, Hid. now split.
    + intros H. destruct (IH H) as (Hin & e' & He' & Hrest).
      split; [assumption|]. exists e'. split; [now right|assumption].
  - intros H. destruct (IH H) as (Hin & e' & He' & Hrest).
    split; [assumption|]. exists e'. split; [now right|assumption].
Qed.

(** With openers gathered, the hostname derived and the configuration
    read, the picker is shown exactly when no entry of the configuration
    has both the hostname of the target and the id of a gathered opener. *)
Theorem picker_shown_iff_no_entry_applies
    svc ps href u s (ops : list entry) tg h value :
  targetUri_of URI_parse href = Returned u ->
  gather ps u DisposableStore_new [] = (Returned (s, ops), tg) ->
  ops <> [] ->
  URL_hostname (URI_toString u) = Returned h ->
  getValue svc settingId = Returned value ->
  In (EvPick (items ops) (prompt u)) (snd (run svc ps href))
  <-> Forall (fun e => entry_applies h ops e = false) (or_empty value).
Proof.
  intros Hu Hg Hne Hh Hv.
  rewrite (run_gathered svc _ _ _ _ _ _ Hu Hg). cbn [snd].
  destruct (gather_returns _ _ _ _ _ _ _ Hg) as (-> & _).
  pose proof (decide_exits svc u href ops) as Hexit.
  destruct (decide_ svc u href ops) as [r td].
  rewrite <- configuredOpener_none. split.
  - intros Hin. apply in_run in Hin; try discriminate.
    inversion Hexit; subst; same_scan; simpl in Hin;
      repeat match goal with
        | H : _ \/ _ |- _ => destruct H
        | H : False |- _ => destruct H
        | H : _ = EvPick _ _ |- _ => discriminate H
        end.
  - intros Hnone. apply in_or_app. right. apply in_or_app. left.
    inversion Hexit; subst; same_scan; unfold shown; simpl; auto.
Qed.

(** A setting that is not defined is read as the empty list of entries:
    the request goes as it does for a setting that holds no entry. *)
Theorem undefined_setting_is_no_entry svc ps href :
  getValue svc settingId = Returned None ->
  run svc ps href = run (with_getValue (Some []) svc) ps href.
Proof.
  intros Hv.
  assert (forall u ops, decide_ svc u href ops
                        = decide_ (with_getValue (Some []) svc) u href ops)
    as Hdecide.
  { intros u ops. unfold decide, resolvePicked. cbn [with_getValue getValue
      openGlobalSettings pick]. destruct (Nat.eqb (length ops) 0);
      [reflexivity|].
    rewrite !bind_lift. destruct (URL_hostname (URI_toString u));
      [|reflexivity].
    rewrite !bind_call, Hv. reflexivity. }
  unfold ExternalUriOpenerService_openExternal. rewrite !bind_lift.
  destruct (targetUri_of URI_parse href) as [u|e]; [|reflexivity].
  unfold bind.
  destruct (gather ps u DisposableStore_new []) as [[[s ops]|e] tg];
    [|reflexivity].
  now rewrite Hdecide.
Qed.

(** *** What a request never does *)

(** The settings are opened only because the picker resolved to the item
    that configures the default opener, and then on the setting of the
    external URI openers, for editing. *)
Theorem settings_opened_only_on_request svc ps href jsonEditor key edit :
  In (EvOpenGlobalSettings jsonEditor key edit) (snd (run svc ps href)) ->
  jsonEditor = true /\ key = settingId /\ edit = true
  /\ exists its ph picked,
      In (EvPick its ph) (snd (run svc ps href))
      /\ pick svc its ph = Returned (Some picked)
      /\ opener picked = OpenerConfigureDefault.
Proof.
  intros Hin.
  destruct (run_cases svc ps href)
    as [(e & Hrun)|[(u & e & k & _ & Hrun)|(u & s & ops & r & td & _ & _ & Hexit & Hrun)]];
    rewrite Hrun in *; cbn [snd] in *.
  - destruct Hin.
  - apply in_map_iff in Hin as [q [Heq _]]. discriminate.
  - apply in_run in Hin; try discriminate.
    inversion Hexit; subst; simpl in Hin;
      repeat match goal with
        | H : _ \/ _ |- _ => destruct H
        | H : False |- _ => destruct H
        | H : EvGetValue _ = EvOpenGlobalSettings _ _ _ |- _ => discriminate H
        | H : shown _ _ _ _ = EvOpenGlobalSettings _ _ _ |- _ => discriminate H
        | H : EvOpenExternal _ _ = EvOpenGlobalSettings _ _ _ |- _ =>
            discriminate H
        | H : EvOpenGlobalSettings _ _ _ = EvOpenGlobalSettings _ _ _ |- _ =>
            injection H as <- <- <-
        end.
    repeat (split; [reflexivity|]).
    match goal with
    | H : prompts _ _ _ _ _ _ _ _ |- _ => destruct H as (_ & Hanswer)
    end.
    exists (items ops), (prompt u), picked. split; [|split; assumption].
    apply in_or_app. right. simpl. auto.
Qed.

(** A request resolves to [false] only when no opener was gathered or when
    the one opener it invoked resolved to [false]: never after the picker
    was shown without an opener being invoked. *)
Theorem false_only_without_opener_or_from_opener svc ps href :
  fst (run svc ps href) = Returned false ->
  (exists u s tg,
      targetUri_of URI_parse href = Returned u
      /\ gather ps u DisposableStore_new [] = (Returned (s, []), tg)
      /\ filter is_pick (snd (run svc ps href)) = [])
  \/ exists o, In (EvOpenExternal o href) (snd (run svc ps href))
               /\ openExternal o href = Returned false.
Proof.
  intros Hfalse.
  destruct (run_cases svc ps href)
    as [(e & Hrun)|[(u & e & k & _ & Hrun)|(u & s & ops & r & td & Hu & Hg & Hexit & Hrun)]];
    rewrite Hrun in *; cbn [fst snd] in *; try discriminate.
  apply after_release_returned in Hfalse as [Hfalse _].
  inversion Hexit; subst; try discriminate.
  - left. exists u, s, (queried u ps). repeat split; try assumption.
    now rewrite filter_run by reflexivity.
  - right. exists o. split; [|assumption].
    apply in_or_app. right. simpl. auto.
  - destruct (openGlobalSettings svc true settingId true); discriminate.
  - right. exists o. split; [|assumption].
    apply in_or_app. right. simpl. auto.
Qed.

(** A request that resolves to [true] without invoking an opener showed
    the picker. *)
Theorem true_without_opener_was_prompted svc ps href :
  fst (run svc ps href) = Returned true ->
  filter is_open (snd (run svc ps href)) = [] ->
  exists its ph, In (EvPick its ph) (snd (run svc ps href)).
Proof.
  intros Htrue Hnone.
  destruct (run_cases svc ps href)
    as [(e & Hrun)|[(u & e & k & _ & Hrun)|(u & s & ops & r & td & Hu & Hg & Hexit & Hrun)]];
    rewrite Hrun in *; cbn [fst snd] in *; try discriminate.
  apply after_release_returned in Htrue as [-> _].
  rewrite filter_run in Hnone by reflexivity.
  exists (items ops), (prompt u). apply in_or_app. right. apply in_or_app. left.
  inversion Hexit; subst; try discriminate; unfold shown; simpl; auto.
Qed.

(** An opener that is invoked without the picker having been shown is a
    gathered opener, and an entry of the configuration binds the hostname
    of the target to its id. *)
Theorem unprompted_opener_is_configured
    svc ps href u s (ops : list entry) tg h value o a :
  targetUri_of URI_parse href = Returned u ->
  gather ps u DisposableStore_new [] = (Returned (s, ops), tg) ->
  URL_hostname (URI_toString u) = Returned h ->
  getValue svc settingId = Returned value ->
  In (EvOpenExternal o a) (snd (run svc ps href)) ->
  filter is_pick (snd (run svc ps href)) = [] ->
  In o ops
  /\ exists e, In e (or_empty value) /\ hostname e = h /\ entry_id e = id o.
Proof.
  intros Hu Hg Hh Hv Hin Hpick.
  rewrite (run_gathered svc _ _ _ _ _ _ Hu Hg) in Hin, Hpick.
  cbn [snd] in Hin, Hpick.
  destruct (gather_returns _ _ _ _ _ _ _ Hg) as (-> & _).
  rewrite filter_run in Hpick by reflexivity.
  apply in_run in Hin; try discriminate.
  pose proof (decide_exits svc u href ops) as Hexit.
  destruct (decide_ svc u href ops) as [r td].
  inversion Hexit; subst; simpl in Hin, Hpick; try discriminate;
    repeat match goal with
      | H : _ \/ _ |- _ => destruct H
      | H : False |- _ => destruct H
      | H : EvGetValue _ = EvOpenExternal _ _ |- _ => discriminate H
      | H : EvOpenExternal _ _ = EvOpenExternal _ _ |- _ =>
          injection H as <- <-
      end.
  same_scan.
  match goal with
  | H : configuredOpener _ _ ops = Some _ |- _ =>
      apply configuredOpener_some in H
  end.
  match goal with
  | H : URL_hostname _ = Returned ?h', H' : getValue _ _ = Returned ?v' |- _ =>
      replace h with h' by congruence; replace value with v' by congruence
  end.
  assumption.
Qed.

(** *** Registration of providers *)

Local Abbreviation providers_of := (ExternalOpenerProviders (URI:=URI)).

Lemma filter_other_nodes {A} node (l : list (nat * A)) :
  Forall (fun n => fst n <> node) l ->
  filter (fun n => negb (Nat.eqb (fst n) node)) l = l.
Proof.
  induction 1 as [|n l Hn _ IH]; simpl; [reflexivity|].
  apply Nat.eqb_neq in Hn. now rewrite Hn, IH.
Qed.

Lemma LinkedList_push_wf {A} (a : A) (l : LinkedList A) :
  LinkedList_wf l -> LinkedList_wf (fst (LinkedList_push a l)).
Proof.
  unfold LinkedList_wf. simpl. intros Hl. apply Forall_app. split.
  - eapply Forall_impl; [|exact Hl]. simpl. intros n Hn. lia.
  - constructor; [simpl; lia|constructor].
Qed.

Lemma LinkedList_remove_wf {A} node (l : LinkedList A) :
  LinkedList_wf l -> LinkedList_wf (LinkedList_remove node l).
Proof.
  unfold LinkedList_wf. simpl. intros Hl. apply Forall_forall.
  intros n Hn. apply filter_In in Hn as [Hn _].
  rewrite Forall_forall in Hl. now apply Hl.
Qed.

(** Registrations add their nodes at the end, in order, under numbers
    from [fresh] on. *)
Lemma register_all_nodes (qs : list provider) (this this' : providers_of) more :
  register_all qs this = (this', more) ->
  nodes this' = nodes this ++ combine (seq (fresh this) (length qs)) qs
  /\ fresh this' = fresh this + length qs
  /\ (LinkedList_wf this -> LinkedList_wf this').
Proof.
  revert this this' more. induction qs as [|q qs IH]; intros this this' more.
  - simpl. intros [= <- <-]. rewrite app_nil_r, Nat.add_0_r. auto.
  - cbn [register_all]. unfold registerExternalOpenerProvider.
    cbn [LinkedList_push].
    destruct (register_all qs _) as [this2 more2] eqn:Hrest.
    intros [= <- <-].
    destruct (IH _ _ _ Hrest) as (Hnodes & Hfresh & Hwf).
    cbn [nodes fresh] in Hnodes, Hfresh.
    rewrite Hnodes, Hfresh, <- app_assoc. simpl.
    split; [reflexivity|]. split; [lia|].
    intros Hthis. apply Hwf. exact (LinkedList_push_wf q this Hthis).
Qed.

Lemma combine_seq_above {A} start (xs : list A) node :
  node < start ->
  Forall (fun n => fst n <> node) (combine (seq start (length xs)) xs).
Proof.
  revert start. induction xs as [|x xs IH]; intros start Hlt; simpl.
  - constructor.
  - constructor; [simpl; lia|]. apply IH. lia.
Qed.

Lemma combine_seq_snd {A} start (xs : list A) :
  map snd (combine (seq start (length xs)) xs) = xs.
Proof.
  revert start. induction xs as [|x xs IH]; intros start; simpl;
    [reflexivity|]. now rewrite IH.
Qed.

(** Disposing a registration removes that registration only: the providers
    registered before and after it stay, in their order, also when one of
    them is the same provider registered again. *)
Theorem registration_dispose_removes_only_it
    (this this1 this2 : providers_of) p node qs more :
  LinkedList_wf this ->
  registerExternalOpenerProvider p this = (this1, node) ->
  register_all qs this1 = (this2, more) ->
  LinkedList_elements this2 = LinkedList_elements this ++ p :: qs
  /\ LinkedList_elements (registration_dispose node this2)
     = LinkedList_elements this ++ qs
  /\ LinkedList_wf (registration_dispose node this2).
Proof.
  intros Hwf [= <- <-] Hall.
  destruct (register_all_nodes _ _ _ _ Hall) as (Hnodes & _ & Hwf2).
  cbn [nodes fresh] in Hnodes. rewrite <- app_assoc in Hnodes.
  unfold LinkedList_elements, registration_dispose.
  cbn [LinkedList_remove nodes]. rewrite Hnodes.
  split; [|split].
  - rewrite !map_app, combine_seq_snd. reflexivity.
  - rewrite !filter_app. cbn [filter app fst]. rewrite Nat.eqb_refl.
    cbn [negb].
    rewrite (filter_other_nodes (fresh this) (nodes this)).
    + rewrite (filter_other_nodes (fresh this) (combine _ _))
        by (apply combine_seq_above; lia).
      cbn [app]. rewrite map_app, combine_seq_snd. reflexivity.
    + eapply Forall_impl; [|exact Hwf]. simpl. intros n Hn. lia.
  - apply LinkedList_remove_wf, Hwf2.
    exact (LinkedList_push_wf p this Hwf).
Qed.

(** Disposing a registration a second time changes nothing. *)
Theorem registration_dispose_twice (this : providers_of) node :
  registration_dispose node (registration_dispose node this)
  = registration_dispose node this.
Proof.
  unfold registration_dispose, LinkedList_remove. cbn [nodes fresh].
  f_equal. induction (nodes this) as [|n l IH]; simpl; [reflexivity|].
  destruct (Nat.eqb (fst n) node) eqn:Hn; simpl; [exact IH|].
  now rewrite Hn, IH.
Qed.
End Properties.

(** ** The model at work *)

Import Example.

(** The example of the specification: two providers with one opener each,
    no configuration entry, the user picks B. *)
Example picks_B :
  run (services [] (Some (itemOf openerB))) [P1; P2] href0 =
  (Returned false,
   queries [P1; P2]
   ++ [EvGetValue settingId; picker [openerA; openerB];
       EvOpenExternal openerB href0]
   ++ [EvDispose 1; EvDispose 2]).
Proof. reflexivity. Qed.

(** A set object that two providers return is retained and released once. *)
Example shared_set_released_once :
  run (services [] None) [P1; P1; P2] href0 =
  (Returned true,
   queries [P1; P1; P2]
   ++ [EvGetValue settingId; picker [openerA; openerA; openerB]]
   ++ [EvDispose 1; EvDispose 2]).
Proof. reflexivity. Qed.

(** An href that does not parse: nothing is queried. *)
Example href_does_not_parse :
  run (services [] None) [P1; P2] (HrefString EmptyString) = (Thrown "UriError", []).
Proof. reflexivity. Qed.

(** The hostname cannot be derived: the handles are released all the same. *)
Example hostname_throws :
  run (services [] None) [P1] (HrefString "mailto:someone") =
  (Thrown "TypeError: Invalid URL",
   [EvProvideExternalOpeners P1 "mailto:someone"; EvDispose 1]).
Proof. reflexivity. Qed.

(** A [dispose()] that throws: the other handle is released all the same,
    and the error of the release replaces the result of the try block. *)
Example dispose_throws_after_cancel :
  run_with (failing 1) (services [] None) [P1; P2] href0 =
  (Thrown "dispose failed",
   queries [P1; P2]
   ++ [EvGetValue settingId; picker [openerA; openerB]]
   ++ [EvDispose 1; EvDispose 2]).
Proof. reflexivity. Qed.

Lemma openExternal_releases_each_handle_once_witness :
  fst (run (services [] (Some (itemOf openerC))) [P1; Pempty; P3] href0)
  = Thrown "no browser"
  /\ filter is_dispose
       (snd (run (services [] (Some (itemOf openerC))) [P1; Pempty; P3] href0))
     = [EvDispose 1; EvDispose 7; EvDispose 3]
  /\ forall d, In d [1; 7; 3] ->
       length (filter (is_dispose_of d)
                 (snd (run (services [] (Some (itemOf openerC)))
                           [P1; Pempty; P3] href0))) = 1.
Proof.
  destruct (openExternal_releases_each_handle_once
              parse toString url_hostname localize settingId quiet dispose_error
              (services [] (Some (itemOf openerC))) [P1; Pempty; P3] href0
              uri0 [1; 7; 3] [openerA; openerC] (queries [P1; Pempty; P3])
              eq_refl eq_refl)
    as (r & td & _ & _ & _ & Honce & _).
  split; [reflexivity|]. split; [reflexivity|exact Honce].
Defined.

(** C2, as stated, fails: the configured opener resolves to [false], the
    [dispose()] of a retained set throws in the [finally] block, and the
    request rejects instead of resolving to the opener's result. *)
Lemma release_error_replaces_configured_result :
  openExternal openerB href0 = Returned false
  /\ run_with (failing 1) (services config0 None) [P1; P2] href0 =
     (Thrown "dispose failed",
      queries [P1; P2]
      ++ [EvGetValue settingId; EvOpenExternal openerB href0]
      ++ [EvDispose 1; EvDispose 2])
  /\ fst (run_with (failing 1) (services config0 None) [P1; P2] href0)
     <> openExternal openerB href0.
Proof. repeat split. discriminate. Qed.

Lemma first_matching_entry_delegates_witness :
  run (services config0 None) [P1; P2] href0 =
    (Returned false,
     queries [P1; P2]
     ++ [EvGetValue settingId; EvOpenExternal openerB href0]
     ++ [EvDispose 1; EvDispose 2])
  /\ filter is_pick (snd (run (services config0 None) [P1; P2] href0)) = []
  /\ filter is_open (snd (run (services config0 None) [P1; P2] href0))
     = [EvOpenExternal openerB href0]
  /\ (dispose_errors quiet [1; 2] = [] ->
        fst (run (services config0 None) [P1; P2] href0) = Returned false).
Proof.
  apply (first_matching_entry_delegates
           parse toString url_hostname localize settingId quiet dispose_error
           (services config0 None) [P1; P2] href0
           uri0 [1; 2] [openerA; openerB] (queries [P1; P2])
           "example.com" (Some config0)
           [entry "example.com" "zz"; entry "other.org" "a"]
           (entry "example.com" "b") [entry "example.com" "a"] openerB);
    try reflexivity.
  - discriminate.
  - repeat constructor.
Defined.

(** C3, as stated, fails: the only provider answers a set without opener,
    the [dispose()] of that set throws, and the request rejects instead of
    resolving to [false]. *)
Lemma release_error_replaces_false :
  gather [Pundefined; Pempty] uri0 DisposableStore_new []
  = (Returned ([7], []), queries [Pundefined; Pempty])
  /\ run_with (failing 7) (services [] None) [Pundefined; Pempty] href0
     = (Thrown "dispose failed",
        queries [Pundefined; Pempty] ++ [EvDispose 7])
  /\ fst (run_with (failing 7) (services [] None) [Pundefined; Pempty] href0)
     <> Returned false.
Proof. repeat split. discriminate. Qed.

Lemma openExternal_without_opener_witness :
  Forall (offers_nothing uri0) [Pundefined; Pempty]
  /\ exists s,
      gather [Pundefined; Pempty] uri0 DisposableStore_new []
        = (Returned (s, []), queries [Pundefined; Pempty])
      /\ run_with (failing 7) (services config0 (Some (itemOf openerA)))
                  [Pundefined; Pempty] href0
         = (after_release (failing 7) dispose_error s (Returned false),
            queries [Pundefined; Pempty] ++ map EvDispose s)
      /\ filter is_pick
           (snd (run_with (failing 7)
                   (services config0 (Some (itemOf openerA)))
                   [Pundefined; Pempty] href0)) = []
      /\ filter is_open
           (snd (run_with (failing 7)
                   (services config0 (Some (itemOf openerA)))
                   [Pundefined; Pempty] href0)) = []
      /\ (forall d, In d s ->
           length (filter (is_dispose_of d)
                     (snd (run_with (failing 7)
                             (services config0 (Some (itemOf openerA)))
                             [Pundefined; Pempty] href0))) = 1)
      /\ (dispose_errors (failing 7) s = [] ->
            fst (run_with (failing 7)
                   (services config0 (Some (itemOf openerA)))
                   [Pundefined; Pempty] href0) = Returned false)
      /\ (Forall (fun p => provideExternalOpeners p uri0 = Returned None)
                 [Pundefined; Pempty] ->
            s = []
            /\ fst (run_with (failing 7)
                      (services config0 (Some (itemOf openerA)))
                      [Pundefined; Pempty] href0) = Returned false).
Proof.
  assert (Forall (offers_nothing uri0) [Pundefined; Pempty]) as Hnothing.
  { constructor; [left; reflexivity|].
    constructor; [|constructor].
    right. exists setEmpty. split; reflexivity. }
  split; [exact Hnothing|].
  exact (openExternal_without_opener
           parse toString url_hostname localize settingId
           (failing 7) dispose_error
           (services config0 (Some (itemOf openerA)))
           [Pundefined; Pempty] href0 uri0 eq_refl (or_intror Hnothing)).
Defined.

Lemma provider_rejection_skips_release_witness :
  run (services [] None) [P1; Prejects; P2] href0
  = (Thrown "provider failed", queries [P1; Prejects])
  /\ exists s ops,
      gather [P1] uri0 DisposableStore_new [] = (Returned (s, ops), queries [P1])
      /\ In (dispose setA) s
      /\ ~ In (EvDispose (dispose setA))
              (snd (run (services [] None) [P1; Prejects; P2] href0)).
Proof.
  assert (Forall (answers uri0) [P1]) as Hanswers.
  { constructor; [|constructor]. exists (Some setA). reflexivity. }
  destruct (provider_rejection_skips_release
              parse toString url_hostname localize settingId quiet dispose_error
              (services [] None) [P1] Prejects [P2] href0 uri0
              "provider failed" eq_refl Hanswers eq_refl)
    as (s & ops & Hg & Hin & Hrun & _ & Hleak).
  split; [exact Hrun|]. exists s, ops.
  assert (In (dispose setA) s) as HA.
  { apply (Hin P1 setA); [left|]; reflexivity. }
  split; [exact Hg|]. split; [exact HA|]. exact (Hleak _ HA).
Defined.



Lemma configured_opener_receives_raw_href_witness :
  toString uri0 <> "https://example.com"
  /\ filter is_open (snd (run (services config0 None) [P1; P2] href0))
     = [EvOpenExternal openerB (HrefString "https://example.com")]
  /\ forall o a,
       In (EvOpenExternal o a)
          (snd (run (services config0 None) [P1; P2] href0)) ->
       a = HrefString "https://example.com"
       /\ a <> HrefUri uri0
       /\ a <> HrefString (toString uri0).
Proof.
  assert (toString uri0 <> "https://example.com") as Hnormal by discriminate.
  assert (scans toString url_hostname settingId (services config0 None)
                uri0 [openerA; openerB] "example.com" config0) as Hscans.
  { split; [discriminate|]. split; [reflexivity|].
    exists (Some config0). split; reflexivity. }
  destruct (configured_opener_receives_raw_href
              parse toString url_hostname localize settingId quiet dispose_error
              (services config0 None) [P1; P2] href0
              uri0 [1; 2] [openerA; openerB] (queries [P1; P2])
              "example.com" config0 openerB eq_refl eq_refl Hscans eq_refl)
    as (Hopen & Harg).
  split; [exact Hnormal|]. split; [exact Hopen|].
  intros o a Hin. destruct (Harg o a Hin) as (Ha & Hraw).
  destruct (Hraw "https://example.com" eq_refl) as (Huri & Hstring).
  split; [exact Ha|]. split; [exact Huri|exact (Hstring Hnormal)].
Defined.

(** C5, as stated, fails: the picked opener resolves to [false], the
    [dispose()] of a retained set throws in the [finally] block, and the
    request rejects instead of resolving to the opener's result. *)
Lemma release_error_replaces_picked_result :
  openExternal openerB href0 = Returned false
  /\ run_with (failing 2) (services [] (Some (itemOf openerB))) [P1; P2] href0
     = (Thrown "dispose failed",
        queries [P1; P2]
        ++ [EvGetValue settingId; picker [openerA; openerB];
            EvOpenExternal openerB href0]
        ++ [EvDispose 1; EvDispose 2])
  /\ fst (run_with (failing 2) (services [] (Some (itemOf openerB)))
                   [P1; P2] href0)
     <> openExternal openerB href0.
Proof. repeat split. discriminate. Qed.

Lemma picked_opener_is_invoked_once_witness :
  filter is_open
    (snd (run (services [] (Some (itemOf openerB))) [P1; P2] href0))
  = [EvOpenExternal openerB href0]
  /\ exists u s ops,
      targetUri_of parse href0 = Returned u
      /\ gather [P1; P2] u DisposableStore_new []
         = (Returned (s, ops),
            map (fun p => EvProvideExternalOpeners p u) [P1; P2])
      /\ fst (run (services [] (Some (itemOf openerB))) [P1; P2] href0)
         = after_release quiet dispose_error s (openExternal openerB href0)
      /\ (dispose_errors quiet s = [] ->
            fst (run (services [] (Some (itemOf openerB))) [P1; P2] href0)
            = Returned false).
Proof.
  apply (picked_opener_is_invoked_once
           parse toString url_hostname localize settingId quiet dispose_error
           (services [] (Some (itemOf openerB))) [P1; P2] href0
           (pickItems localize [openerA; openerB])
           (placeHolder toString localize uri0)
           (itemOf openerB) openerB).
  - simpl. right; right; right; left. reflexivity.
  - reflexivity.
  - reflexivity.
Defined.

(** C6, as stated, fails: the user cancels the picker, or picks Default,
    the [dispose()] of a retained set throws in the [finally] block, and
    the request rejects instead of resolving to [true]. *)
Lemma release_error_replaces_true :
  run_with (failing 1) (services [] None) [P1; P2] href0
  = (Thrown "dispose failed",
     queries [P1; P2]
     ++ [EvGetValue settingId; picker [openerA; openerB]]
     ++ [EvDispose 1; EvDispose 2])
  /\ run_with (failing 1) (services [] (Some itemDefault)) [P1; P2] href0
     = (Thrown "dispose failed",
        queries [P1; P2]
        ++ [EvGetValue settingId; picker [openerA; openerB]]
        ++ [EvDispose 1; EvDispose 2])
  /\ fst (run_with (failing 1) (services [] None) [P1; P2] href0)
     <> Returned true.
Proof. repeat split. discriminate. Qed.

Lemma cancel_or_default_returns_true_witness :
  (filter is_open (snd (run (services [] None) [P1; P2] href0)) = []
   /\ exists u s ops,
       targetUri_of parse href0 = Returned u
       /\ gather [P1; P2] u DisposableStore_new []
          = (Returned (s, ops),
             map (fun p => EvProvideExternalOpeners p u) [P1; P2])
       /\ fst (run (services [] None) [P1; P2] href0)
          = after_release quiet dispose_error s (Returned true)
       /\ (dispose_errors quiet s = [] ->
             fst (run (services [] None) [P1; P2] href0) = Returned true))
  /\ (filter is_open
        (snd (run (services [] (Some itemDefault)) [P1; P2] href0)) = []
      /\ exists u s ops,
          targetUri_of parse href0 = Returned u
          /\ gather [P1; P2] u DisposableStore_new []
             = (Returned (s, ops),
                map (fun p => EvProvideExternalOpeners p u) [P1; P2])
          /\ fst (run (services [] (Some itemDefault)) [P1; P2] href0)
             = after_release quiet dispose_error s (Returned true)
          /\ (dispose_errors quiet s = [] ->
                fst (run (services [] (Some itemDefault)) [P1; P2] href0)
                = Returned true)).
Proof.
  split.
  - apply (cancel_or_default_returns_true
             parse toString url_hostname localize settingId
             quiet dispose_error
             (services [] None) [P1; P2] href0
             (pickItems localize [openerA; openerB])
             (placeHolder toString localize uri0)).
    + simpl. right; right; right; left. reflexivity.
    + left. reflexivity.
  - apply (cancel_or_default_returns_true
             parse toString url_hostname localize settingId
             quiet dispose_error
             (services [] (Some itemDefault)) [P1; P2] href0
             (pickItems localize [openerA; openerB])
             (placeHolder toString localize uri0)).
    + simpl. right; right; right; left. reflexivity.
    + right. exists itemDefault. split; reflexivity.
Defined.

(** C7, as stated, fails in two ways: the settings editor cannot be
    opened and the request rejects with that error; or it is opened, the
    [dispose()] of a retained set throws in the [finally] block, and the
    request rejects with the error of the release. *)
Lemma configure_default_may_reject :
  run (services_without_settings (Some itemConfigure)) [P1; P2] href0
  = (Thrown "settings failed",
     queries [P1; P2]
     ++ [EvGetValue settingId; picker [openerA; openerB];
         EvOpenGlobalSettings true settingId true]
     ++ [EvDispose 1; EvDispose 2])
  /\ run_with (failing 2) (services [] (Some itemConfigure)) [P1; P2] href0
     = (Thrown "dispose failed",
        queries [P1; P2]
        ++ [EvGetValue settingId; picker [openerA; openerB];
            EvOpenGlobalSettings true settingId true]
        ++ [EvDispose 1; EvDispose 2])
  /\ fst (run (services_without_settings (Some itemConfigure))
              [P1; P2] href0) <> Returned true
  /\ fst (run_with (failing 2) (services [] (Some itemConfigure))
                   [P1; P2] href0) <> Returned true.
Proof. repeat split; discriminate. Qed.

Lemma configure_default_opens_settings_witness :
  filter is_openGlobalSettings
    (snd (run (services [] (Some itemConfigure)) [P1; P2] href0))
  = [EvOpenGlobalSettings true settingId true]
  /\ filter is_open
       (snd (run (services [] (Some itemConfigure)) [P1; P2] href0)) = []
  /\ fst (run (services [] (Some itemConfigure)) [P1; P2] href0)
     = Returned true.
Proof.
  destruct (configure_default_opens_settings
              parse toString url_hostname localize settingId
              quiet dispose_error
              (services [] (Some itemConfigure)) [P1; P2] href0
              (pickItems localize [openerA; openerB])
              (placeHolder toString localize uri0) itemConfigure)
    as (Hsettings & Hopen & u & s & ops & _ & Hg & _ & Htrue & _).
  - simpl. right; right; right; left. reflexivity.
  - reflexivity.
  - reflexivity.
  - split; [exact Hsettings|]. split; [exact Hopen|].
    apply (Htrue tt eq_refl).
    assert (forall s', dispose_errors quiet s' = []) as Hquiet.
    { induction s' as [|d s' IH]; [reflexivity|exact IH]. }
    apply Hquiet.
Defined.

(** ** The further properties at work *)

Import MoreExamples.

Lemma gather_flattens_in_order_witness :
  exists s,
    gather [P1; Pundefined; P2; Pempty] uri0 DisposableStore_new []
    = (Returned (s, [openerA; openerB]),
       queries [P1; Pundefined; P2; Pempty]).
Proof.
  apply (gather_flattens_in_order [P1; Pundefined; P2; Pempty] uri0).
  repeat constructor.
  - exists (Some setA). reflexivity.
  - exists None. reflexivity.
  - exists (Some setB). reflexivity.
  - exists (Some setEmpty). reflexivity.
Defined.

Lemma queried_providers_receive_target_witness :
  targetUri_of parse href0 = Returned uri0 /\ In P2 [P1; P2].
Proof.
  apply (queried_providers_receive_target
           parse toString url_hostname localize settingId quiet dispose_error
           (services [] None) [P1; P2] href0 P2 uri0).
  simpl. right; left. reflexivity.
Defined.

Lemma unparsable_href_rejects_first_witness :
  run (services config0 None) [P1; P2] (HrefString EmptyString)
  = (Thrown "UriError", []).
Proof.
  apply (unparsable_href_rejects_first
           parse toString url_hostname localize settingId quiet dispose_error
           (services config0 None) [P1; P2] EmptyString "UriError").
  reflexivity.
Defined.

Lemma hostname_failure_releases_witness :
  run_with (failing 2) (services config0 None) [P1; P2] hrefMail
  = (Thrown "dispose failed",
     map (fun p => EvProvideExternalOpeners p uriMail) [P1; P2]
     ++ [EvDispose 1; EvDispose 2])
  /\ (dispose_errors (failing 2) [1; 2] = [] ->
        fst (run_with (failing 2) (services config0 None) [P1; P2] hrefMail)
        = Thrown "TypeError: Invalid URL").
Proof.
  apply (hostname_failure_releases
           parse toString url_hostname localize settingId
           (failing 2) dispose_error
           (services config0 None) [P1; P2] hrefMail uriMail
           [1; 2] [openerA; openerB]
           (map (fun p => EvProvideExternalOpeners p uriMail) [P1; P2])
           "TypeError: Invalid URL");
    try reflexivity.
  discriminate.
Defined.

Lemma configuration_failure_releases_witness :
  run services_without_configuration [P1; P2] href0
  = (Thrown "configuration failed",
     queries [P1; P2] ++ [EvGetValue settingId] ++ [EvDispose 1; EvDispose 2])
  /\ (dispose_errors quiet [1; 2] = [] ->
        fst (run services_without_configuration [P1; P2] href0)
        = Thrown "configuration failed").
Proof.
  apply (configuration_failure_releases
           parse toString url_hostname localize settingId quiet dispose_error
           services_without_configuration [P1; P2] href0 uri0
           [1; 2] [openerA; openerB] (queries [P1; P2])
           "example.com" "configuration failed");
    try reflexivity.
  discriminate.
Defined.

Lemma picker_failure_releases_witness :
  exists u s ops,
    gather [P1; P2] u DisposableStore_new []
    = (Returned (s, ops), map (fun p => EvProvideExternalOpeners p u) [P1; P2])
    /\ run services_without_picker [P1; P2] href0
       = (after_release quiet dispose_error s (Thrown "picker failed"),
          map (fun p => EvProvideExternalOpeners p u) [P1; P2]
          ++ [EvGetValue settingId;
              EvPick (pickItems localize [openerA; openerB])
                     (placeHolder toString localize uri0)]
          ++ map EvDispose s)
    /\ (dispose_errors quiet s = [] ->
          fst (run services_without_picker [P1; P2] href0)
          = Thrown "picker failed").
Proof.
  apply (picker_failure_releases
           parse toString url_hostname localize settingId quiet dispose_error
           services_without_picker [P1; P2] href0
           (pickItems localize [openerA; openerB])
           (placeHolder toString localize uri0) "picker failed").
  - simpl. right; right; right; left. reflexivity.
  - reflexivity.
Defined.

Lemma picker_offers_each_gathered_opener_witness :
  nth_error (pickItems localize [openerA; openerB]) 1 = Some (Item (itemOf openerB))
  /\ In openerB [openerA; openerB]
  /\ pick_label (itemOf openerB) = label openerB.
Proof.
  destruct (picker_offers_each_gathered_opener localize [openerA; openerB])
    as (_ & Hnth & _ & Hin).
  split; [exact (Hnth 1 openerB eq_refl)|].
  apply (Hin (itemOf openerB) openerB); [|reflexivity].
  simpl. right; left. reflexivity.
Defined.

Lemma picker_shows_what_was_gathered_witness :
  exists u,
    targetUri_of parse href0 = Returned u
    /\ pickItems localize [openerA; openerB]
       = pickItems localize (flat_map (offered u) [P1; Pundefined; P2])
    /\ item_openers (pickItems localize [openerA; openerB])
       = flat_map (offered u) [P1; Pundefined; P2]
    /\ placeHolder toString localize uri0 = placeHolder toString localize u.
Proof.
  apply (picker_shows_what_was_gathered
           parse toString url_hostname localize settingId quiet dispose_error
           (services [] None) [P1; Pundefined; P2] href0
           (pickItems localize [openerA; openerB])
           (placeHolder toString localize uri0)).
  simpl. right; right; right; right; left. reflexivity.
Defined.

Lemma picker_shown_iff_no_entry_applies_witness :
  In (picker [openerA; openerB])
     (snd (run (services [entry "example.com" "zz"; entry "other.org" "a"]
                         None)
               [P1; P2] href0)).
Proof.
  apply (picker_shown_iff_no_entry_applies
           parse toString url_hostname localize settingId quiet dispose_error
           (services [entry "example.com" "zz"; entry "other.org" "a"] None)
           [P1; P2] href0 uri0 [1; 2] [openerA; openerB] (queries [P1; P2])
           "example.com"
           (Some [entry "example.com" "zz"; entry "other.org" "a"]));
    try reflexivity.
  - discriminate.
  - repeat constructor.
Defined.

Lemma undefined_setting_is_no_entry_witness :
  run (services_undefined (Some (itemOf openerB))) [P1; P2] href0
  = run (with_getValue (Some [])
           (services_undefined (Some (itemOf openerB)))) [P1; P2] href0.
Proof.
  apply (undefined_setting_is_no_entry
           parse toString url_hostname localize settingId quiet dispose_error
           (services_undefined (Some (itemOf openerB))) [P1; P2] href0).
  reflexivity.
Defined.

Lemma settings_opened_only_on_request_witness :
  true = true /\ settingId = settingId /\ true = true
  /\ exists its ph picked,
      In (EvPick its ph)
         (snd (run (services [] (Some itemConfigure)) [P1; P2] href0))
      /\ pick (services [] (Some itemConfigure)) its ph
         = Returned (Some picked)
      /\ opener picked = OpenerConfigureDefault.
Proof.
  apply (settings_opened_only_on_request
           parse toString url_hostname localize settingId quiet dispose_error
           (services [] (Some itemConfigure)) [P1; P2] href0
           true settingId true).
  simpl. right; right; right; right; left. reflexivity.
Defined.

Lemma false_only_without_opener_or_from_opener_witness :
  (exists u s tg,
      targetUri_of parse href0 = Returned u
      /\ gather [P1; P2] u DisposableStore_new [] = (Returned (s, []), tg)
      /\ filter is_pick
           (snd (run (services [] (Some (itemOf openerB))) [P1; P2] href0))
         = [])
  \/ exists o,
      In (EvOpenExternal o href0)
         (snd (run (services [] (Some (itemOf openerB))) [P1; P2] href0))
      /\ openExternal o href0 = Returned false.
Proof.
  apply (false_only_without_opener_or_from_opener
           parse toString url_hostname localize settingId quiet dispose_error
           (services [] (Some (itemOf openerB))) [P1; P2] href0).
  reflexivity.
Defined.

Lemma true_without_opener_was_prompted_witness :
  exists its ph,
    In (EvPick its ph)
       (snd (run (services [] (Some itemDefault)) [P1; P2] href0)).
Proof.
  apply (true_without_opener_was_prompted
           parse toString url_hostname localize settingId quiet dispose_error
           (services [] (Some itemDefault)) [P1; P2] href0);
    reflexivity.
Defined.

Lemma unprompted_opener_is_configured_witness :
  In openerB [openerA; openerB]
  /\ exists e, In e config0 /\ hostname e = "example.com"
               /\ entry_id e = id openerB.
Proof.
  apply (unprompted_opener_is_configured
           parse toString url_hostname localize settingId quiet dispose_error
           (services config0 None) [P1; P2] href0 uri0
           [1; 2] [openerA; openerB] (queries [P1; P2])
           "example.com" (Some config0) openerB href0);
    try reflexivity.
  simpl. right; right; right; left. reflexivity.
Defined.

Lemma registration_dispose_removes_only_it_witness :
  LinkedList_elements
    (fst (register_all [P2; P1]
            (fst (registerExternalOpenerProvider P1 registered12))))
  = [P1; P2] ++ P1 :: [P2; P1]
  /\ LinkedList_elements
       (registration_dispose 2
          (fst (register_all [P2; P1]
                  (fst (registerExternalOpenerProvider P1 registered12)))))
     = [P1; P2] ++ [P2; P1]
  /\ LinkedList_wf
       (registration_dispose 2
          (fst (register_all [P2; P1]
                  (fst (registerExternalOpenerProvider P1 registered12))))).
Proof.
  apply (registration_dispose_removes_only_it
           registered12
           (fst (registerExternalOpenerProvider P1 registered12))
           (fst (register_all [P2; P1]
                   (fst (registerExternalOpenerProvider P1 registered12))))
           P1 2 [P2; P1] [3; 4]);
    try reflexivity.
  unfold LinkedList_wf. simpl. repeat constructor.
Defined.
